(** * Verification of the offline checkers of lifesimuletorC

    Two scripts are embedded here:
    - [scripts/physics_verifier.py], the physics diagnostic (bond force
      solver, integrator, the 300-step run on the C4 square, the verdict);
    - [audit_valency.py], the topology auditor (the pattern of a bond
      line, the bond graph built from the [BOND] log events, the valence
      check of the player atom, the printed report).

    Python [float] arithmetic is written once, over an interface of the
    operations the scripts use, and read in two ways: as IEEE binary64
    (Rocq's primitive floats, which evaluate) and as exact real arithmetic
    (the idealisation in which the algebraic properties are stated). *)

From Stdlib Require Import ZArith QArith Reals Lra Lia.
From Stdlib Require PrimFloat Uint63.

Abbreviation float := PrimFloat.float.
From stdpp Require Import base option list gmap pretty strings.

(** ** Python exceptions and the result of a computation that may raise *)

Inductive PyError : Set :=
  | ZeroDivisionError
  | OverflowError
  | ValueError
  | IndexError.

Inductive result (A : Type) : Type :=
  | Ok (v : A)
  | Raise (e : PyError).
Arguments Ok {A} v.
Arguments Raise {A} e.

#[global] Instance result_ret : MRet result := fun A v => Ok v.
#[global] Instance result_bind : MBind result := fun A B k m =>
  match m with
  | Ok v => k v
  | Raise e => Raise e
  end.
#[global] Instance result_fmap : FMap result := fun A B g m =>
  match m with
  | Ok v => Ok (g v)
  | Raise e => Raise e
  end.

(** One step of a sequence of statements: the bind of [result] on a value
    that is already known. *)
Ltac next := cbn [mbind result_bind mret result_ret fmap result_fmap snd].

(** [for v in l: s = body(s, v)], stopping at the first exception. *)
Fixpoint for_each {A S : Type} (body : S -> A -> result S) (l : list A) (s : S)
  : result S :=
  match l with
  | [] => Ok s
  | v :: l' => s' ← body s v; for_each body l' s'
  end.

(** [for _ in range(n): s = body(s)]. *)
Fixpoint repeat_n {S : Type} (body : S -> result S) (n : nat) (s : S) : result S :=
  match n with
  | O => Ok s
  | Datatypes.S n' => s' ← body s; repeat_n body n' s'
  end.

(** [l[i]] for a non-negative index. *)
Definition getitem {A : Type} (l : list A) (i : nat) : result A :=
  match l !! i with
  | Some v => Ok v
  | None => Raise IndexError
  end.

(** ** The float operations the scripts use *)

Declare Scope py_scope.
Delimit Scope py_scope with py.

Class PyFloat (F : Type) : Type := {
  (** the value of a decimal literal such as [0.92] or [42] *)
  lit : Q -> F;
  fadd : F -> F -> F;
  fsub : F -> F -> F;
  fmul : F -> F -> F;
  (** the quotient, once the divisor is known not to be zero *)
  fquot : F -> F -> F;
  fneg : F -> F;
  feqb : F -> F -> bool;
  fltb : F -> F -> bool;
  (** [v ** 2] *)
  fsquare : F -> result F;
  (** [math.sqrt(v)] *)
  fsqrt : F -> result F
}.

(** [v / w]: Python raises [ZeroDivisionError] on a zero divisor. *)
Definition fdiv {F : Type} `{PyFloat F} (v w : F) : result F :=
  if feqb w (lit 0) then Raise ZeroDivisionError else Ok (fquot v w).

Notation "v + w" := (fadd v w) : py_scope.
Notation "v - w" := (fsub v w) : py_scope.
Notation "v * w" := (fmul v w) : py_scope.
Notation "- v" := (fneg v) : py_scope.
Notation "v / w" := (fdiv v w) : py_scope.
Notation "v =? w" := (feqb v w) : py_scope.
Notation "v <? w" := (fltb v w) : py_scope.
Notation "v >? w" := (fltb w v) : py_scope.

(** *** Binary64 *)

Definition float_of_Z (z : Z) : float :=
  match z with
  | Z0 => PrimFloat.zero
  | Zpos _ => PrimFloat.of_uint63 (Uint63.of_Z z)
  | Zneg p => PrimFloat.opp (PrimFloat.of_uint63 (Uint63.of_Z (Zpos p)))
  end.

(** A decimal literal denotes the binary64 value nearest to it; for the short
    literals of the scripts that is the correctly rounded quotient of its
    numerator and denominator. *)
Definition float_lit (q : Q) : float :=
  PrimFloat.div (float_of_Z (Qnum q)) (float_of_Z (Zpos (Qden q))).

(** CPython's [float.__pow__] at exponent 2: [nan] and the infinities go
    through, a finite base whose square overflows raises [OverflowError].
    The square itself is taken correctly rounded. *)
Definition float_square (v : float) : result float :=
  if PrimFloat.is_nan v then Ok v
  else if PrimFloat.is_infinity v then Ok PrimFloat.infinity
  else
    let r := PrimFloat.mul v v in
    if PrimFloat.is_infinity r then Raise OverflowError else Ok r.

(** [math.sqrt]: [ValueError] below zero, [nan] goes through. *)
Definition float_sqrt (v : float) : result float :=
  if PrimFloat.ltb v PrimFloat.zero then Raise ValueError
  else Ok (PrimFloat.sqrt v).

#[global] Instance binary64 : PyFloat float := {|
  lit := float_lit;
  fadd := PrimFloat.add;
  fsub := PrimFloat.sub;
  fmul := PrimFloat.mul;
  fquot := PrimFloat.div;
  fneg := PrimFloat.opp;
  feqb := PrimFloat.eqb;
  fltb := PrimFloat.ltb;
  fsquare := float_square;
  fsqrt := float_sqrt
|}.

(** *** Exact real arithmetic *)

#[global] Instance R_eq_dec : EqDecision R := Req_dec_T.
#[global] Instance Rlt_decision (v w : R) : Decision (Rlt v w) := Rlt_dec v w.

Definition real_sqrt (v : R) : result R :=
  if bool_decide (Rlt v 0) then Raise ValueError else Ok (sqrt v).

#[global] Instance reals : PyFloat R := {|
  lit := Q2R;
  fadd := Rplus;
  fsub := Rminus;
  fmul := Rmult;
  fquot := Rdiv;
  fneg := Ropp;
  feqb := fun v w => bool_decide (v = w);
  fltb := fun v w => bool_decide (Rlt v w);
  fsquare := fun v => Ok (v * v)%R;
  fsqrt := real_sqrt
|}.

(** ** scripts/physics_verifier.py *)

Module Atom.

(** [class Atom]: the fields set by [__init__]. *)
Record t (F : Type) : Type := mk {
  id : Z;
  x : F;
  y : F;
  vx : F;
  vy : F;
  fx : F;
  fy : F
}.
Arguments mk {F} _ _ _ _ _ _ _.
Arguments id {F} _.
Arguments x {F} _.
Arguments y {F} _.
Arguments vx {F} _.
Arguments vy {F} _.
Arguments fx {F} _.
Arguments fy {F} _.

Section Methods.
Context {F : Type} `{PyFloat F}.
Local Open Scope py_scope.

(** [Atom(id, x, y)]: [float(x)], [float(y)], the rest [0.0]. *)
Definition init (i : Z) (px py : Z) : t F :=
  mk i (lit (inject_Z px)) (lit (inject_Z py))
    (lit 0.0) (lit 0.0) (lit 0.0) (lit 0.0).

(** Assignment to one attribute. *)
Definition set_x (a : t F) (v : F) : t F :=
  mk (id a) v (y a) (vx a) (vy a) (fx a) (fy a).
Definition set_y (a : t F) (v : F) : t F :=
  mk (id a) (x a) v (vx a) (vy a) (fx a) (fy a).
Definition set_vx (a : t F) (v : F) : t F :=
  mk (id a) (x a) (y a) v (vy a) (fx a) (fy a).
Definition set_vy (a : t F) (v : F) : t F :=
  mk (id a) (x a) (y a) (vx a) v (fx a) (fy a).
Definition set_fx (a : t F) (v : F) : t F :=
  mk (id a) (x a) (y a) (vx a) (vy a) v (fy a).
Definition set_fy (a : t F) (v : F) : t F :=
  mk (id a) (x a) (y a) (vx a) (vy a) (fx a) v.

Definition apply_force (a : t F) (gx gy : F) : t F :=
  let a := set_fx a (fx a + gx) in
  let a := set_fy a (fy a + gy) in
  a.

End Methods.
End Atom.

Module Physics.
Import Atom.

Section Program.
Context {F : Type} `{PyFloat F}.
Local Open Scope py_scope.

(** LATEST C++ CONFIG *)
Definition BOND_SPRING_K : F := lit 8.0.
Definition BOND_DAMPING : F := lit 0.92.
Definition BOND_BREAK_STRESS : F := lit 180.0.
Definition BOND_IDEAL_DIST : F := lit 42.0.
Definition DT : F := fquot (lit 1.0) (lit 60.0).

(** VISUAL CONFIG *)
Definition BASE_ATOM_RADIUS : F := lit 7.0.
Definition VDW_CARBON : F := lit 1.7.
Definition PLAYER_SCALE : F := lit 1.0.
Definition ATOM_RADIUS_PX : F := VDW_CARBON * BASE_ATOM_RADIUS.
Definition ATOM_DIAMETER_PX : F := ATOM_RADIUS_PX * lit 2.

Definition MASS : F := lit 12.0.

(** [Atom.update] *)
Definition update (a : Atom.t F) : result (Atom.t F) :=
  ax ← fx a / MASS;
  ay ← fy a / MASS;
  let a := set_vx a (vx a + ax * DT) in
  let a := set_vy a (vy a + ay * DT) in
  let a := set_vx a (vx a * lit 0.95) in
  let a := set_vy a (vy a * lit 0.95) in
  let a := set_x a (x a + vx a * DT) in
  let a := set_y a (y a + vy a * DT) in
  let a := set_fx a (lit 0.0) in
  let a := set_fy a (lit 0.0) in
  Ok a.

Definition dist (a b : Atom.t F) : result F :=
  sx ← fsquare (x a - x b);
  sy ← fsquare (y a - y b);
  fsqrt (sx + sy).

(** Lines 54 to 70 of [solve_bond]: the force [(fx, fy)] it is about to
    apply, or [None] where it returns [False] at [d == 0]. The quotients
    [dx/d] and [dy/d], which the source writes out at each use, are named
    [ux] and [uy]. *)
Definition bond_force (a b : Atom.t F) : result (option (F * F)) :=
  d ← dist a b;
  if d =? lit 0 then Ok None
  else
    let force := (d - BOND_IDEAL_DIST) * BOND_SPRING_K in
    let dx := x b - x a in
    let dy := y b - y a in
    ux ← dx / d;
    let gx := ux * force in
    uy ← dy / d;
    let gy := uy * force in
    let rx := vx b - vx a in
    let ry := vy b - vy a in
    let damp := (rx * ux + ry * uy) * BOND_DAMPING in
    let gx := gx + ux * damp in
    let gy := gy + uy * damp in
    Ok (Some (gx, gy)).

(** [solve_bond(a, b)] on two distinct objects: the returned flag and the
    two atoms as the call leaves them. *)
Definition solve_bond (a b : Atom.t F) : result (bool * Atom.t F * Atom.t F) :=
  g ← bond_force a b;
  match g with
  | None => Ok (false, a, b)
  | Some (gx, gy) =>
      let a := apply_force a gx gy in
      let b := apply_force b (- gx) (- gy) in
      Ok (true, a, b)
  end.

(** [solve_bond(atoms[i], atoms[j])] on the list the main loop holds: both
    calls of [apply_force] go through the list, so that [i = j] mutates one
    object twice. *)
Definition solve_bond_at (atoms : list (Atom.t F)) (i j : nat)
  : result (bool * list (Atom.t F)) :=
  a ← getitem atoms i;
  b ← getitem atoms j;
  g ← bond_force a b;
  match g with
  | None => Ok (false, atoms)
  | Some (gx, gy) =>
      let atoms := alter (fun a => apply_force a gx gy) i atoms in
      let atoms := alter (fun b => apply_force b (- gx) (- gy)) j atoms in
      Ok (true, atoms)
  end.

(** Setup C4 Square *)
Definition atoms : list (Atom.t F) :=
  [Atom.init 0 0 0; Atom.init 1 42 0; Atom.init 2 42 42; Atom.init 3 0 42].
Definition bonds : list (nat * nat) := [(0, 1); (1, 2); (2, 3); (3, 0)]%nat.

(** One pass of the body of [for step in range(300)] over the state
    [(atoms, min_gap)]. *)
Definition step (st : list (Atom.t F) * F) : result (list (Atom.t F) * F) :=
  let '(atoms, min_gap) := st in
  atoms ← for_each (fun atoms '(i, j) => snd <$> solve_bond_at atoms i j) bonds atoms;
  atoms ← mapM update atoms;
  a0 ← getitem atoms 0;
  a1 ← getitem atoms 1;
  d ← dist a0 a1;
  let gap := d - ATOM_DIAMETER_PX in
  let min_gap := if gap <? min_gap then gap else min_gap in
  Ok (atoms, min_gap).

Inductive Verdict : Set := PASS | WARN | FAIL.

(** The [if]/[elif]/[else] that prints the verdict line. *)
Definition verdict (final_gap : F) : Verdict :=
  if final_gap >? lit 5.0 then PASS
  else if final_gap >? lit 0 then WARN
  else FAIL.

(** The values the results section holds: the final bond length and gap and
    the verdict are printed, [min_gap] is what the loop tracked. *)
Record Report : Type := mkReport {
  final_dist : F;
  final_gap : F;
  min_gap : F;
  printed : Verdict
}.

(** The loop run for [n] steps from [(atoms0, 1000.0)], and the results
    section that follows it. *)
Definition run_from (atoms0 : list (Atom.t F)) (n : nat) : result Report :=
  '(atoms, min_gap) ← repeat_n step n (atoms0, lit 1000.0);
  a0 ← getitem atoms 0;
  a1 ← getitem atoms 1;
  final_dist ← dist a0 a1;
  let final_gap := final_dist - ATOM_DIAMETER_PX in
  Ok (mkReport final_dist final_gap min_gap (verdict final_gap)).

(** The script. *)
Definition main : result Report := run_from atoms 300.

End Program.
End Physics.

(** ** audit_valency.py *)

Module Audit.

(** Configuración de valencias *)
Definition VALENCIAS : gmap Z Z :=
  list_to_map [(1, 1); (6, 4); (7, 3); (8, 2); (15, 5); (16, 2)]%Z.

Definition ELEMENT_NAMES : gmap Z string :=
  list_to_map [(1, "H"); (6, "C"); (7, "N"); (8, "O"); (15, "P"); (16, "S")]%Z.

(** A matched log line, [(child, parent)] in the order of the two groups of
    [bond_pattern]. *)
Definition BondEvent : Type := Z * Z.

(** The two dictionaries [analyze_logs] fills while it reads the file. *)
Record BondGraph : Type := mkGraph {
  connections : gmap Z (list Z);
  parent_of : gmap Z Z
}.

Definition empty_graph : BondGraph := mkGraph ∅ ∅.

(** The body of [if match:], on a [defaultdict(list)] and a [dict]. *)
Definition record_bond (g : BondGraph) (e : BondEvent) : BondGraph :=
  let '(child, parent) := e in
  mkGraph
    (<[parent := default [] (connections g !! parent) ++ [child]]> (connections g))
    (<[child := parent]> (parent_of g)).

(** The [for line in f] loop, over the lines that matched. *)
Definition build_graph (events : list BondEvent) : BondGraph :=
  fold_left record_bond events empty_graph.

Definition violation_text (count : nat) : string :=
  "VIOLACIÓN: Jugador (H) tiene " +:+ pretty count +:+ " enlaces (máx 1).".

(** The list [violations] as [analyze_logs] leaves it: only the check of
    the player (ID 0) appends to it; the loop over the rest of the
    population and the chain report append nothing. *)
Definition audit (g : BondGraph) : list string :=
  let violations := [] in
  match connections g !! 0%Z with
  | Some children =>
      let count := length children in
      if bool_decide (1 < count)%nat
      then violations ++ [violation_text count]
      else violations
  | None => violations
  end.

(** The last lines of the report: clean, or the alert with its items. *)
Inductive Outcome : Type :=
  | Clean
  | Alert (items : list string).

Definition outcome (violations : list string) : Outcome :=
  match violations with
  | [] => Clean
  | _ => Alert violations
  end.

(** [analyze_logs], from the events of the file to its [violations]. *)
Definition analyze_logs (events : list BondEvent) : list string :=
  audit (build_graph events).

End Audit.

(** *** What the auditor prints *)

Module AuditReport.
Import Audit.

(** Each [print] of [analyze_logs], in order; [render] gives its text. *)
Inductive Line : Type :=
  | Header (file_path : string)
  | AnalysisHeader
  | PlayerLine (count : nat) (children : list Z)
  | ChildLine (child_id : Z) (links : nat)
  | PathsHeader
  | ChainLine (c1 c2 : Z)
  | CleanResult
  | CleanNote
  | AlertHeader
  | AlertItem (v : string).

(** The newline that opens some of the messages. *)
Definition nl : string := String (Ascii.ascii_of_nat 10) EmptyString.

(** [str] of a list of ints, as an f-string prints it. *)
Definition list_repr (l : list Z) : string :=
  "[" +:+ String.concat ", " (pretty <$> l) +:+ "]".

Definition render (ln : Line) : string :=
  match ln with
  | Header file_path => "--- AUDITORÍA QUÍMICA DE TOPOLOGÍA: " +:+ file_path +:+ " ---"
  | AnalysisHeader => nl +:+ "[ANÁLISIS DE ESTRUCTURAS DETECTADAS]"
  | PlayerLine count children =>
      "Jugador (H, ID 0): " +:+ pretty count +:+ " enlaces entrantes. Niños: "
        +:+ list_repr children
  | ChildLine child_id links =>
      "  -> Hijo " +:+ pretty child_id +:+ " tiene " +:+ pretty links
        +:+ " enlaces. Estructura: H-" +:+ pretty child_id +:+ "-(...)"
  | PathsHeader => nl +:+ "[VERIFICACIÓN DE CAMINOS (Ejemplo H-C-H)]"
  | ChainLine c1 c2 =>
      "Cadena detectada: H(0) -> Atom(" +:+ pretty c1 +:+ ") -> Atom("
        +:+ pretty c2 +:+ ")"
  | CleanResult =>
      nl +:+ "[RESULTADO] No se detectaron violaciones de valencia crítica o estructuras imposibles (como H-H-C)."
  | CleanNote =>
      "El sistema de Inteligencia Molecular parece guiar los átomos a los hosts correctos."
  | AlertHeader => nl +:+ "[ALERTA] Anomalías detectadas:"
  | AlertItem v => "  - " +:+ v
  end.

(** 1. Verificar el Jugador: the player line, then one line for each child
    of the player that has children of its own. *)
Definition player_lines (g : BondGraph) : list Line :=
  match connections g !! 0%Z with
  | Some children =>
      PlayerLine (length children) children ::
      omap (fun child_id =>
              match connections g !! child_id with
              | Some grand_children => Some (ChildLine child_id (length grand_children))
              | None => None
              end) children
  | None => []
  end.

(** Verificación de caminos: the chains player, child, grandchild. *)
Definition chain_lines (g : BondGraph) : list Line :=
  match connections g !! 0%Z with
  | Some children =>
      c1 ← children;
      match connections g !! c1 with
      | Some grand_children => ChainLine c1 <$> grand_children
      | None => []
      end
  | None => []
  end.

(** The closing [if not violations] block. *)
Definition result_lines (violations : list string) : list Line :=
  match violations with
  | [] => [CleanResult; CleanNote]
  | _ => AlertHeader :: (AlertItem <$> violations)
  end.

(** Everything [analyze_logs] prints for the events of the file. *)
Definition report (file_path : string) (events : list BondEvent) : list Line :=
  let g := build_graph events in
  [Header file_path] ++ [AnalysisHeader] ++ player_lines g ++
  [PathsHeader] ++ chain_lines g ++ result_lines (audit g).

End AuditReport.

(** *** The pattern of a bond line *)

Module LogParser.
Import Audit.

(** A line of the log: the code points of a Python [str]. *)
Definition Text : Type := list N.

(** The code points of an ASCII string. *)
Definition codes (s : string) : Text :=
  Ascii.N_of_ascii <$> String.list_ascii_of_string s.

Definition PREFIX : Text := codes "[BOND] GLOBAL SUCCESS: ".
Definition ARROW : Text := codes " -> ".

Section Parser.
(** Python's table of decimal digits and its [int] are not part of the
    script: what [\d] matches, and [int] on a run of such characters, are
    parameters. *)
Variable is_digit : N -> bool.
Variable py_int : Text -> result Z.

(** A literal piece of the pattern at the start of [l]. *)
Fixpoint strip_literal (p l : Text) : option Text :=
  match p, l with
  | [], _ => Some l
  | c :: p', d :: l' => if (c =? d)%N then strip_literal p' l' else None
  | _ :: _, [] => None
  end.

(** The longest run of digits at the start of [l], and what follows it. *)
Fixpoint span_digits (l : Text) : Text * Text :=
  match l with
  | c :: l' =>
      if is_digit c
      then let '(run, rest) := span_digits l' in (c :: run, rest)
      else ([], l)
  | [] => ([], [])
  end.

(** [ -> (\d+)] at the start of [l]: the second group, greedy. *)
Definition match_tail (l : Text) : option Text :=
  rest ← strip_literal ARROW l;
  match (span_digits rest).1 with
  | [] => None
  | g2 => Some g2
  end.

(** The first group takes the [k] first digits of [run], longest first. *)
Fixpoint match_groups (k : nat) (run rest : Text) : option (Text * Text) :=
  match k with
  | O => None
  | S k' =>
      match match_tail (drop k run ++ rest) with
      | Some g2 => Some (take k run, g2)
      | None => match_groups k' run rest
      end
  end.

(** The pattern at the start of [l]. *)
Definition match_here (l : Text) : option (Text * Text) :=
  rest ← strip_literal PREFIX l;
  let '(run, rest) := span_digits rest in
  match_groups (length run) run rest.

(** [bond_pattern.search(line)]: the leftmost start that matches. *)
Fixpoint search (line : Text) : option (Text * Text) :=
  match match_here line with
  | Some m => Some m
  | None =>
      match line with
      | [] => None
      | _ :: line' => search line'
      end
  end.

(** The body of [for line in f]: the event of a matched line. *)
Definition parse_line (line : Text) : result (option BondEvent) :=
  match search line with
  | Some (g1, g2) =>
      child ← py_int g1;
      parent ← py_int g2;
      Ok (Some (child, parent))
  | None => Ok None
  end.

(** The whole loop: the events of the file, in order. *)
Fixpoint read_events (lines : list Text) : result (list BondEvent) :=
  match lines with
  | [] => Ok []
  | line :: lines' =>
      e ← parse_line line;
      es ← read_events lines';
      Ok (match e with Some ev => ev :: es | None => es end)
  end.

(** The text does not go on with a digit. *)
Definition ends_run (l : Text) : Prop :=
  match l with
  | [] => True
  | c :: _ => is_digit c = false
  end.

End Parser.

(** The parameters on ASCII text: the digits 0 to 9, read in base ten. *)
Definition ascii_digit (c : N) : bool := (48 <=? c)%N && (c <=? 57)%N.
Definition ascii_int (t : Text) : result Z :=
  Ok (fold_left (fun v c => (10 * v + (Z.of_N c - 48))%Z) t 0%Z).

End LogParser.

(** ** Vocabulary of the specification *)

Module AuditSpec.
Import Audit.

(** The child ids of the events whose parent is [p], in log order. *)
Definition children_in_log (p : Z) (events : list BondEvent) : list Z :=
  (filter (fun e => e.2 = p) events).*1.

(** The parent of the last event whose child is [c]. *)
Definition last_parent_in_log (c : Z) (events : list BondEvent) : option Z :=
  snd <$> last (filter (fun e => e.1 = c) events).

(** The number of events in which the root (id 0) is the parent. *)
Definition root_count (events : list BondEvent) : nat :=
  length (children_in_log 0 events).

Definition contains (needle hay : string) : Prop :=
  exists pre post, hay = pre +:+ needle +:+ post.

End AuditSpec.

Module PhysicsSpec.
Import Atom Physics.
Local Open Scope R_scope.

Abbreviation AtomR := (Atom.t R).

Definition sq_dist (a b : AtomR) : R :=
  (x a - x b) * (x a - x b) + (y a - y b) * (y a - y b).

(** [d], the Euclidean distance between the two positions. *)
Definition separation (a b : AtomR) : R := sqrt (sq_dist a b).

(** The unit vector from A to B. *)
Definition axis (a b : AtomR) : R * R :=
  ((x b - x a) / separation a b, (y b - y a) / separation a b).

(** Spring force magnitude. *)
Definition spring_term (a b : AtomR) : R :=
  (separation a b - BOND_IDEAL_DIST) * BOND_SPRING_K.

(** The relative velocity projected on the axis, scaled by the damping
    coefficient. *)
Definition damping_term (a b : AtomR) : R :=
  ((vx b - vx a) * (axis a b).1 + (vy b - vy a) * (axis a b).2) * BOND_DAMPING.

(** The force of the pair: spring plus damping, along the axis. *)
Definition pair_force (a b : AtomR) : R * R :=
  ((axis a b).1 * (spring_term a b + damping_term a b),
   (axis a b).2 * (spring_term a b + damping_term a b)).

(** The sentence of section 4.5 as it is written: [+force] on B, [-force]
    on A. *)
Definition stated_force_on_B (a b : AtomR) : Prop :=
  x a <> x b \/ y a <> y b ->
  solve_bond a b =
    Ok (true,
        Atom.mk (id a) (x a) (y a) (vx a) (vy a)
          (fx a - (pair_force a b).1) (fy a - (pair_force a b).2),
        Atom.mk (id b) (x b) (y b) (vx b) (vy b)
          (fx b + (pair_force a b).1) (fy b + (pair_force a b).2)).

(** Zero velocity and zero accumulated force. *)
Definition at_rest (a : AtomR) : Prop :=
  vx a = 0 /\ vy a = 0 /\ fx a = 0 /\ fy a = 0.

(** One solver call on the pair, then one integrator step on each atom. *)
Definition solver_then_integrator {F : Type} `{PyFloat F} (a b : Atom.t F)
  : result (Atom.t F * Atom.t F) :=
  '(_, a, b) ← solve_bond a b;
  a ← update a;
  b ← update b;
  Ok (a, b).

(** The integrator step of section 4.6 in closed form. *)
Definition integrated {F : Type} `{PyFloat F} (a : Atom.t F) : Atom.t F :=
  let ax := fquot (fx a) MASS in
  let ay := fquot (fy a) MASS in
  let vx' := fmul (fadd (vx a) (fmul ax DT)) (lit 0.95) in
  let vy' := fmul (fadd (vy a) (fmul ay DT)) (lit 0.95) in
  Atom.mk (id a) (fadd (x a) (fmul vx' DT)) (fadd (y a) (fmul vy' DT))
    vx' vy' (lit 0.0) (lit 0.0).

(** The result of a call with its two atoms exchanged. *)
Definition swap_pair {A : Type} (r : bool * A * A) : bool * A * A :=
  let '(flag, a, b) := r in (flag, b, a).

(** The gap of a bond at its ideal length. *)
Definition rest_gap : R := BOND_IDEAL_DIST - ATOM_DIAMETER_PX.

End PhysicsSpec.

(** Further vocabulary of the physics diagnostic. *)

Module PhysicsTerms.
Import Atom Physics PhysicsSpec.

(** The five fields the solver never writes. *)
Definition kinematics {F : Type} (a : Atom.t F) : Z * F * F * F * F :=
  (id a, x a, y a, vx a, vy a).

(** Both accumulators hold the [0.0] that [update] leaves. *)
Definition unloaded {F : Type} `{PyFloat F} (a : Atom.t F) : Prop :=
  fx a = lit 0.0 /\ fy a = lit 0.0.

(** The sum of one field over the atoms. *)
Definition total (g : AtomR -> R) (l : list AtomR) : R :=
  foldr (fun a s => (g a + s)%R) 0%R l.

(** An atom at x = 2^992, a finite binary64 value. *)
Definition far : Atom.t float :=
  let p := float_of_Z (2 ^ 62) in
  let q := PrimFloat.mul p p in
  let r := PrimFloat.mul q q in
  let s := PrimFloat.mul r r in
  Atom.mk 1 (PrimFloat.mul s s) (lit 0) (lit 0) (lit 0) (lit 0) (lit 0).

End PhysicsTerms.

(** ** The topology auditor *)

Module AuditFacts.
Import Audit AuditSpec.

Lemma build_graph_snoc events e :
  build_graph (events ++ [e]) = record_bond (build_graph events) e.
Proof. unfold build_graph. by rewrite fold_left_app. Qed.

Lemma children_in_log_snoc p events c q :
  children_in_log p (events ++ [(c, q)]) =
  if decide (q = p) then children_in_log p events ++ [c]
  else children_in_log p events.
Proof.
  unfold children_in_log. rewrite filter_app, fmap_app.
  rewrite filter_cons, filter_nil. cbn.
  destruct (decide (q = p)); cbn; [done|]. by rewrite app_nil_r.
Qed.

Lemma last_parent_in_log_snoc c events d q :
  last_parent_in_log c (events ++ [(d, q)]) =
  if decide (d = c) then Some q else last_parent_in_log c events.
Proof.
  unfold last_parent_in_log. rewrite filter_app, filter_cons, filter_nil. cbn.
  destruct (decide (d = c)); cbn.
  - by rewrite last_snoc.
  - by rewrite app_nil_r.
Qed.

Lemma connections_build events p :
  connections (build_graph events) !! p =
  match children_in_log p events with
  | [] => None
  | l => Some l
  end.
Proof.
  induction events as [|[c q] events IH] using rev_ind; [done|].
  rewrite build_graph_snoc, children_in_log_snoc. cbn.
  destruct (decide (q = p)) as [->|Hne].
  - rewrite lookup_insert_eq, IH.
    by destruct (children_in_log p events).
  - by rewrite lookup_insert_ne.
Qed.

Lemma parent_of_build events c :
  parent_of (build_graph events) !! c = last_parent_in_log c events.
Proof.
  induction events as [|[d q] events IH] using rev_ind; [done|].
  rewrite build_graph_snoc, last_parent_in_log_snoc. cbn.
  destruct (decide (d = c)) as [->|Hne].
  - by rewrite lookup_insert_eq.
  - by rewrite lookup_insert_ne.
Qed.

(** The last element that satisfies [P] is followed only by elements that do
    not. *)
Lemma last_filter_Some {A} (P : A -> Prop) `{forall v, Decision (P v)}
    (l : list A) (e : A) :
  last (filter P l) = Some e <->
  exists l1 l2, l = l1 ++ e :: l2 /\ P e /\ Forall (fun v => ~ P v) l2.
Proof.
  induction l as [|v l IH] using rev_ind.
  - split; [done|]. intros (l1 & l2 & Hl & _). by destruct l1.
  - rewrite filter_app, filter_cons, filter_nil.
    destruct (decide (P v)) as [HP|HP].
    + rewrite last_snoc. split.
      * intros [= ->]. exists l, []. by repeat split.
      * intros (l1 & l2 & Hl & HPe & Hall).
        destruct l2 as [|w l2 _] using rev_ind.
        -- apply app_inj_tail in Hl as [_ ->]. done.
        -- rewrite app_comm_cons, app_assoc in Hl.
           apply app_inj_tail in Hl as [_ ->].
           apply Forall_app in Hall as [_ Hw]. by inversion Hw.
    + rewrite app_nil_r, IH. split.
      * intros (l1 & l2 & -> & HPe & Hall). exists l1, (l2 ++ [v]).
        rewrite <- app_assoc. repeat split; [done|].
        apply Forall_app. split; [done|]. by constructor.
      * intros (l1 & l2 & Hl & HPe & Hall).
        destruct l2 as [|w l2 _] using rev_ind.
        -- apply app_inj_tail in Hl as [_ ->]. done.
        -- rewrite app_comm_cons, app_assoc in Hl.
           apply app_inj_tail in Hl as [-> ->].
           apply Forall_app in Hall as [Hall _]. by exists l1, l2.
Qed.

Lemma contains_violation_text (n : nat) : contains (pretty n) (violation_text n).
Proof. by exists "VIOLACIÓN: Jugador (H) tiene ", " enlaces (máx 1).". Qed.

Lemma analyze_logs_by_root_count (events : list BondEvent) :
  analyze_logs events =
    if decide (root_count events <= 1)%nat then []
    else [violation_text (root_count events)].
Proof.
  unfold analyze_logs, audit, root_count. rewrite connections_build.
  destruct (children_in_log 0 events) as [|c l] eqn:Hc; [done|].
  cbn [length app].
  destruct (decide (S (length l) <= 1)%nat) as [Hle|Hgt].
  - by rewrite bool_decide_eq_false_2 by lia.
  - by rewrite bool_decide_eq_true_2 by lia.
Qed.

Example analyze_logs_three_children :
  analyze_logs [(1, 0); (2, 0); (3, 1); (1, 0)]%Z =
    ["VIOLACIÓN: Jugador (H) tiene 3 enlaces (máx 1)."].
Proof. vm_compute. reflexivity. Qed.

Example analyze_logs_chain : analyze_logs [(1, 0); (3, 1)]%Z = [].
Proof. vm_compute. reflexivity. Qed.

(** C6. The list of violations is empty exactly when the root (id 0) is the
    parent in at most one event, duplicates counted; when it is the parent
    in more, the list is the single text built from that count, which
    contains its decimal form; the clean verdict is printed in the first
    case only. Nothing else in the events enters. *)
Theorem violations_iff_root_fanout (events : list BondEvent) :
  (analyze_logs events = [] <-> (root_count events <= 1)%nat) /\
  analyze_logs events =
    (if decide (root_count events <= 1)%nat then []
     else [violation_text (root_count events)]) /\
  contains (pretty (root_count events)) (violation_text (root_count events)) /\
  (outcome (analyze_logs events) = Clean <-> (root_count events <= 1)%nat).
Proof.
  rewrite analyze_logs_by_root_count.
  destruct (decide (root_count events <= 1)%nat) as [Hle|Hgt].
  - repeat split; try done. apply contains_violation_text.
  - repeat split; try done. apply contains_violation_text.
Qed.

(** C8. After the events are folded, [parent_of] maps each child to the
    parent of the last event with that child (an event followed by no other
    event of the same child), and [connections] of a parent is the list of
    children of its events in log order, duplicates kept; a parent of no
    event has no entry. *)
Theorem graph_builder_last_write_wins (events : list BondEvent) :
  (forall c : Z,
     parent_of (build_graph events) !! c = last_parent_in_log c events) /\
  (forall c p : Z,
     parent_of (build_graph events) !! c = Some p <->
     exists before after,
       events = before ++ (c, p) :: after /\ Forall (fun e => e.1 <> c) after) /\
  (forall p : Z,
     default [] (connections (build_graph events) !! p) = children_in_log p events) /\
  (forall p : Z,
     connections (build_graph events) !! p = None <->
     Forall (fun e => e.2 <> p) events).
Proof.
  split; [|split; [|split]].
  - apply parent_of_build.
  - intros c p. rewrite parent_of_build. unfold last_parent_in_log.
    rewrite fmap_Some. split.
    + intros ([c' p'] & Hlast & ->). cbn.
      apply (last_filter_Some (fun e : BondEvent => e.1 = c)) in Hlast
        as (l1 & l2 & -> & Hc & Hall).
      cbn in Hc. subst c'. by exists l1, l2.
    + intros (l1 & l2 & -> & Hall). exists (c, p). split; [|done].
      apply (last_filter_Some (fun e : BondEvent => e.1 = c)).
      by exists l1, l2.
  - intros p. rewrite connections_build.
    by destruct (children_in_log p events).
  - intros p. rewrite connections_build. unfold children_in_log.
    destruct (filter _ events) as [|e l] eqn:Hf; cbn.
    + split; [|done]. intros _. apply Forall_forall. intros e He Hp.
      assert (e ∈ filter (fun e : Z * Z => e.2 = p) events) as Hin
        by by apply list_elem_of_filter.
      rewrite Hf in Hin. by apply elem_of_nil in Hin.
    + split; [done|]. intros Hall.
      assert (e ∈ filter (fun e : Z * Z => e.2 = p) events) as Hin
        by (rewrite Hf; left).
      apply list_elem_of_filter in Hin as [Hp Hin].
      rewrite Forall_forall in Hall. by destruct (Hall e Hin).
Qed.

End AuditFacts.

(** ** The physics diagnostic *)

Module PhysicsFacts.
Import Atom Physics PhysicsSpec.

(** *** Facts that hold in any arithmetic *)

Section AnyArithmetic.
Context {F : Type} `{PyFloat F}.

Lemma repeat_n_snoc {S : Type} (body : S -> result S) (n : nat) (s : S) :
  repeat_n body (Datatypes.S n) s = s' ← repeat_n body n s; body s'.
Proof.
  revert s. induction n as [|n IH]; intros s.
  - cbn. by destruct (body s).
  - change ((s1 ← body s; repeat_n body (Datatypes.S n) s1) =
            (s' ← (s1 ← body s; repeat_n body n s1); body s')).
    destruct (body s) as [s1|e]; [|reflexivity].
    apply IH.
Qed.

(** The guard [if d == 0: return False] of [solve_bond]. *)
Lemma zero_distance_no_force (a b : Atom.t F) (d : F)
    (l : list (Atom.t F)) (i j : nat) :
  dist a b = Ok d ->
  feqb d (lit 0) = true ->
  l !! i = Some a ->
  l !! j = Some b ->
  bond_force a b = Ok None /\
  solve_bond a b = Ok (false, a, b) /\
  solve_bond_at l i j = Ok (false, l) /\
  (forall v : F, fdiv v d = Raise ZeroDivisionError).
Proof.
  intros Hd Hz Hi Hj.
  assert (Hf : bond_force a b = Ok None).
  { unfold bond_force. rewrite Hd. next. by rewrite Hz. }
  repeat split.
  - done.
  - unfold solve_bond. by rewrite Hf.
  - unfold solve_bond_at, getitem. rewrite Hi, Hj. next. by rewrite Hf.
  - intros v. unfold fdiv. by rewrite Hz.
Qed.

Lemma update_integrated (a : Atom.t F) :
  feqb (MASS : F) (lit 0) = false -> update a = Ok (integrated a).
Proof.
  intros Hm. unfold update, fdiv. rewrite Hm. reflexivity.
Qed.

(** What the last pass of the loop leaves in [min_gap]. *)
Lemma step_tracks_gap (l l' : list (Atom.t F)) (m m' : F) :
  step (l, m) = Ok (l', m') ->
  exists a0 a1 d,
    getitem l' 0 = Ok a0 /\ getitem l' 1 = Ok a1 /\ dist a0 a1 = Ok d /\
    m' = if fltb (fsub d ATOM_DIAMETER_PX) m then fsub d ATOM_DIAMETER_PX else m.
Proof.
  unfold step.
  destruct (for_each _ bonds l) as [l1|e]; next; [|done].
  destruct (mapM update l1) as [l2|e]; next; [|done].
  destruct (getitem l2 0) as [a0|e] eqn:H0; next; [|done].
  destruct (getitem l2 1) as [a1|e] eqn:H1; next; [|done].
  destruct (dist a0 a1) as [d|e] eqn:Hd; next; [|done].
  intros [= <- <-]. by exists a0, a1, d.
Qed.

Lemma run_from_report (atoms0 : list (Atom.t F)) (n : nat) (r : Report) :
  run_from atoms0 n = Ok r ->
  final_gap r = fsub (final_dist r) ATOM_DIAMETER_PX /\
  printed r = verdict (final_gap r).
Proof.
  unfold run_from.
  destruct (repeat_n step n _) as [[l1 m1]|e]; next; [|done].
  destruct (getitem l1 0) as [a0|e]; next; [|done].
  destruct (getitem l1 1) as [a1|e]; next; [|done].
  destruct (dist a0 a1) as [d|e]; next; [|done].
  by intros [= <-].
Qed.

End AnyArithmetic.

(** *** Binary64: the scripts evaluated *)

Section Binary64.

Lemma MASS_nonzero_binary64 : feqb (@MASS float _) (lit 0) = false.
Proof. vm_compute. reflexivity. Qed.

(** A stretched bond, 50 px long: A is pulled towards B with 64, B towards
    A with the same. *)
Example solve_bond_binary64_stretched :
  solve_bond (@Atom.init float _ 0 0 0) (Atom.init 1 50 0) =
    Ok (true,
        Atom.mk 0 (lit 0) (lit 0) (lit 0) (lit 0) (lit 64) (lit 0),
        Atom.mk 1 (lit 50) (lit 0) (lit 0) (lit 0) (fneg (lit 64)) (lit 0)).
Proof. vm_compute. reflexivity. Qed.

Example solve_bond_binary64_coincident :
  solve_bond (@Atom.init float _ 0 7 7) (Atom.init 1 7 7) =
    Ok (false, Atom.init 0 7 7, Atom.init 1 7 7).
Proof. vm_compute. reflexivity. Qed.

(** The run of the script: the square never moves. *)
Lemma main_binary64 :
  @main float _ =
    Ok (mkReport BOND_IDEAL_DIST (fsub BOND_IDEAL_DIST ATOM_DIAMETER_PX)
          (fsub BOND_IDEAL_DIST ATOM_DIAMETER_PX) PASS).
Proof. vm_compute. reflexivity. Qed.

End Binary64.

(** *** Exact arithmetic *)

Section Exact.
Local Open Scope R_scope.

(** Closes a goal about the values of literals. *)
Ltac literals := cbn; unfold Q2R; cbn; lra.

Lemma lit_exact_Z (z : Z) : @lit R _ (inject_Z z) = IZR z.
Proof. literals. Qed.

Lemma fdiv_exact (v w : R) : w <> 0 -> fdiv v w = Ok (v / w).
Proof.
  intros Hw. unfold fdiv. cbn. unfold Q2R. cbn.
  rewrite bool_decide_eq_false_2; [done|]. lra.
Qed.

Lemma fdiv_exact_zero (v : R) : fdiv v 0 = Raise ZeroDivisionError.
Proof.
  unfold fdiv. cbn. unfold Q2R. cbn.
  rewrite bool_decide_eq_true_2; [done|]. lra.
Qed.

Lemma MASS_exact : @MASS R _ = 12.
Proof. unfold MASS. literals. Qed.

Lemma DT_exact : @DT R _ = 1 / 60.
Proof. unfold DT. literals. Qed.

Lemma BOND_IDEAL_DIST_exact : @BOND_IDEAL_DIST R _ = 42.
Proof. unfold BOND_IDEAL_DIST. literals. Qed.

Lemma BOND_SPRING_K_exact : @BOND_SPRING_K R _ = 8.
Proof. unfold BOND_SPRING_K. literals. Qed.

Lemma BOND_DAMPING_exact : @BOND_DAMPING R _ = 92 / 100.
Proof. unfold BOND_DAMPING. literals. Qed.

Lemma ATOM_DIAMETER_PX_exact : @ATOM_DIAMETER_PX R _ = 238 / 10.
Proof.
  unfold ATOM_DIAMETER_PX, ATOM_RADIUS_PX, VDW_CARBON, BASE_ATOM_RADIUS.
  literals.
Qed.

Lemma MASS_nonzero_exact : feqb (@MASS R _) (lit 0) = false.
Proof. cbn. apply bool_decide_eq_false_2. unfold Q2R. cbn. lra. Qed.

Lemma zero_is_zero : feqb (0 : R) (lit 0) = true.
Proof. cbn. apply bool_decide_eq_true_2. unfold Q2R. cbn. lra. Qed.

Lemma rest_gap_exact : rest_gap = 182 / 10.
Proof.
  unfold rest_gap. rewrite BOND_IDEAL_DIST_exact, ATOM_DIAMETER_PX_exact. lra.
Qed.

(** Equality of atoms and of solver results, field by field. *)
Lemma atom_ext (i : Z) (x1 y1 vx1 vy1 fx1 fy1 x2 y2 vx2 vy2 fx2 fy2 : R) :
  x1 = x2 -> y1 = y2 -> vx1 = vx2 -> vy1 = vy2 -> fx1 = fx2 -> fy1 = fy2 ->
  Atom.mk i x1 y1 vx1 vy1 fx1 fy1 = Atom.mk i x2 y2 vx2 vy2 fx2 fy2.
Proof. by intros -> -> -> -> -> ->. Qed.

Lemma solved_ext (flag : bool) (a1 b1 a2 b2 : AtomR) :
  a1 = a2 -> b1 = b2 -> Ok (flag, a1, b1) = Ok (flag, a2, b2).
Proof. by intros -> ->. Qed.

Lemma init_exact (i px py : Z) :
  @Atom.init R _ i px py = Atom.mk i (IZR px) (IZR py) 0 0 0 0.
Proof.
  unfold Atom.init. rewrite !lit_exact_Z. cbn. unfold Q2R. cbn.
  apply atom_ext; lra.
Qed.

Lemma apply_force_exact (a : AtomR) (gx gy : R) :
  apply_force a gx gy =
    Atom.mk (id a) (x a) (y a) (vx a) (vy a) (fx a + gx) (fy a + gy).
Proof. reflexivity. Qed.

Lemma apply_force_zero (a : AtomR) : apply_force a 0 0 = a.
Proof. destruct a. rewrite apply_force_exact. cbn. apply atom_ext; lra. Qed.

Lemma apply_force_neg_zero (a : AtomR) : apply_force a (- 0) (- 0) = a.
Proof. destruct a. rewrite apply_force_exact. cbn. apply atom_ext; lra. Qed.

(** **** The distance *)

Lemma sq_dist_nonneg a b : 0 <= sq_dist a b.
Proof.
  unfold sq_dist.
  pose proof (Rle_0_sqr (x a - x b)) as Hu.
  pose proof (Rle_0_sqr (y a - y b)) as Hv.
  unfold Rsqr in Hu, Hv. lra.
Qed.

Lemma sq_dist_zero a b : sq_dist a b = 0 <-> x a = x b /\ y a = y b.
Proof.
  unfold sq_dist. split; [|intros [-> ->]; lra]. intros Hs.
  pose proof (Rle_0_sqr (x a - x b)) as Hu0.
  pose proof (Rle_0_sqr (y a - y b)) as Hv0.
  unfold Rsqr in Hu0, Hv0.
  assert (Hu : (x a - x b) * (x a - x b) = 0) by lra.
  assert (Hv : (y a - y b) * (y a - y b) = 0) by lra.
  apply Rmult_integral in Hu, Hv. lra.
Qed.

Lemma sq_dist_sym a b : sq_dist a b = sq_dist b a.
Proof. unfold sq_dist. ring. Qed.

Lemma separation_zero a b : separation a b = 0 <-> x a = x b /\ y a = y b.
Proof.
  unfold separation. rewrite <- sq_dist_zero. split.
  - intros Hs. apply sqrt_eq_0; [apply sq_dist_nonneg|done].
  - intros ->. apply sqrt_0.
Qed.

Lemma separation_sym a b : separation a b = separation b a.
Proof. unfold separation. by rewrite sq_dist_sym. Qed.

Lemma separation_of_square (a b : AtomR) (s : R) :
  0 <= s -> sq_dist a b = s * s -> separation a b = s.
Proof. intros Hs Hsq. unfold separation. rewrite Hsq. by apply sqrt_square. Qed.

Lemma init_separation (i j px py qx qy : Z) (s : R) :
  0 <= s ->
  (IZR px - IZR qx) * (IZR px - IZR qx) + (IZR py - IZR qy) * (IZR py - IZR qy)
    = s * s ->
  separation (@Atom.init R _ i px py) (@Atom.init R _ j qx qy) = s.
Proof.
  intros Hs Hsq. apply separation_of_square; [done|].
  rewrite !init_exact. exact Hsq.
Qed.

(** [dist] never raises in exact arithmetic. *)
Lemma dist_exact (a b : AtomR) : dist a b = Ok (separation a b).
Proof.
  unfold dist. cbn. unfold real_sqrt.
  rewrite bool_decide_eq_false_2; [done|].
  pose proof (sq_dist_nonneg a b). unfold sq_dist in *. lra.
Qed.

Lemma dist_coincident (a b : AtomR) : x a = x b -> y a = y b -> dist a b = Ok 0.
Proof. intros Hx Hy. rewrite dist_exact. f_equal. by apply separation_zero. Qed.

Lemma apart_or_coincident (a b : AtomR) :
  (x a = x b /\ y a = y b) \/ (x a <> x b \/ y a <> y b).
Proof.
  destruct (decide (x a = x b)); [|right; by left].
  destruct (decide (y a = y b)); [by left|right; by right].
Qed.

Lemma apart_separation (a b : AtomR) :
  x a <> x b \/ y a <> y b -> separation a b <> 0.
Proof. rewrite separation_zero. tauto. Qed.

(** **** The solver *)

Lemma bond_force_apart (a b : AtomR) :
  x a <> x b \/ y a <> y b -> bond_force a b = Ok (Some (pair_force a b)).
Proof.
  intros Hne. pose proof (apart_separation a b Hne) as Hd.
  unfold bond_force. rewrite dist_exact. next. cbn [feqb reals].
  rewrite bool_decide_eq_false_2; [|unfold lit, reals, Q2R; cbn; lra].
  rewrite !fdiv_exact by done. next.
  do 3 f_equal. unfold pair_force, axis, spring_term, damping_term. cbn.
  f_equal; ring.
Qed.

Lemma solve_bond_apart (a b : AtomR) :
  x a <> x b \/ y a <> y b ->
  solve_bond a b =
    Ok (true,
        Atom.mk (id a) (x a) (y a) (vx a) (vy a)
          (fx a + (pair_force a b).1) (fy a + (pair_force a b).2),
        Atom.mk (id b) (x b) (y b) (vx b) (vy b)
          (fx b - (pair_force a b).1) (fy b - (pair_force a b).2)).
Proof.
  intros Hne. unfold solve_bond. rewrite bond_force_apart by done.
  destruct (pair_force a b) as [gx gy]. cbn. reflexivity.
Qed.

Lemma solve_bond_coincident (a b : AtomR) :
  x a = x b -> y a = y b -> solve_bond a b = Ok (false, a, b).
Proof.
  intros Hx Hy.
  apply (zero_distance_no_force a b 0 [a; b] 0 1); [|apply zero_is_zero|done|done].
  by apply dist_coincident.
Qed.

Lemma pair_force_swap (a b : AtomR) :
  separation a b <> 0 ->
  pair_force b a = (- (pair_force a b).1, - (pair_force a b).2).
Proof.
  intros Hd. unfold pair_force, damping_term, spring_term, axis. cbn.
  rewrite <- (separation_sym a b). f_equal; field; done.
Qed.

Lemma pair_force_stretched :
  pair_force (@Atom.init R _ 0 0 0) (Atom.init 1 50 0) = (64, 0).
Proof.
  unfold pair_force, damping_term, spring_term, axis.
  rewrite (init_separation 0 1 0 0 50 0 50) by lra.
  rewrite BOND_IDEAL_DIST_exact, BOND_SPRING_K_exact, BOND_DAMPING_exact.
  rewrite !init_exact. cbn. f_equal; lra.
Qed.

Lemma stretched_apart :
  x (@Atom.init R _ 0 0 0) <> x (@Atom.init R _ 1 50 0) \/
  y (@Atom.init R _ 0 0 0) <> y (@Atom.init R _ 1 50 0).
Proof. left. rewrite !init_exact. cbn. lra. Qed.

(** C1, as the code has it. For two atoms at different positions the solver
    returns [True]; the force of the pair (spring term plus damping term,
    along the unit vector from A to B) is added to the accumulator of A and
    its negation to the accumulator of B, so that the two changes are equal
    and opposite; no other field changes. *)
Theorem solve_bond_applies_opposite_forces (a b : AtomR) :
  x a <> x b \/ y a <> y b ->
  exists a' b' : AtomR,
    solve_bond a b = Ok (true, a', b') /\
    a' = Atom.mk (id a) (x a) (y a) (vx a) (vy a)
           (fx a + (pair_force a b).1) (fy a + (pair_force a b).2) /\
    b' = Atom.mk (id b) (x b) (y b) (vx b) (vy b)
           (fx b - (pair_force a b).1) (fy b - (pair_force a b).2) /\
    (fx a' - fx a) + (fx b' - fx b) = 0 /\
    (fy a' - fy a) + (fy b' - fy b) = 0.
Proof.
  intros Hne. eexists _, _. split; [by apply solve_bond_apart|].
  split; [reflexivity|]. split; [reflexivity|]. cbn. split; lra.
Qed.

(** The theorem at a bond stretched to 50 px. *)
Lemma solve_bond_applies_opposite_forces_witness :
  let a : AtomR := Atom.init 0 0 0 in
  let b : AtomR := Atom.init 1 50 0 in
  (x a <> x b \/ y a <> y b) /\
  exists a' b' : AtomR,
    solve_bond a b = Ok (true, a', b') /\
    a' = Atom.mk (id a) (x a) (y a) (vx a) (vy a)
           (fx a + (pair_force a b).1) (fy a + (pair_force a b).2) /\
    b' = Atom.mk (id b) (x b) (y b) (vx b) (vy b)
           (fx b - (pair_force a b).1) (fy b - (pair_force a b).2) /\
    (fx a' - fx a) + (fx b' - fx b) = 0 /\
    (fy a' - fy a) + (fy b' - fy b) = 0.
Proof.
  intros a b. split; [exact stretched_apart|].
  exact (solve_bond_applies_opposite_forces a b stretched_apart).
Defined.

(** C1, as the sentence is written, fails on a bond stretched to 50 px: the
    solver adds [+64] to the accumulator of A and [-64] to that of B. *)
Lemma stated_force_on_B_fails :
  ~ stated_force_on_B (Atom.init 0 0 0) (Atom.init 1 50 0).
Proof.
  unfold stated_force_on_B. intros Hclaim.
  specialize (Hclaim stretched_apart).
  rewrite solve_bond_apart in Hclaim by apply stretched_apart.
  rewrite pair_force_stretched in Hclaim. rewrite !init_exact in Hclaim.
  cbn in Hclaim. injection Hclaim as Hfx _ _ _. lra.
Qed.

(** C3. Two atoms at the same position are at distance 0, and [dist] raises
    nothing there (exact arithmetic). At distance 0, in binary64 as in any
    arithmetic, the solver computes no force and performs no division (one
    by this distance would raise), returns [False] and leaves both atoms,
    and the list that holds them, as they were. *)
Theorem coincident_particles_no_force :
  (forall a b : AtomR, x a = x b -> y a = y b -> dist a b = Ok 0) /\
  (forall (F : Type) (HF : PyFloat F) (a b : Atom.t F) (d : F)
          (l : list (Atom.t F)) (i j : nat),
     dist a b = Ok d -> feqb d (lit 0) = true ->
     l !! i = Some a -> l !! j = Some b ->
     bond_force a b = Ok None /\
     solve_bond a b = Ok (false, a, b) /\
     solve_bond_at l i j = Ok (false, l) /\
     (forall v : F, fdiv v d = Raise ZeroDivisionError)).
Proof.
  split.
  - apply dist_coincident.
  - intros F HF. apply zero_distance_no_force.
Qed.

(** The theorem at two atoms that both sit at (7, 7), in exact arithmetic
    and in binary64. *)
Lemma coincident_particles_no_force_witness :
  (let a : AtomR := Atom.init 0 7 7 in
   let b : AtomR := Atom.init 1 7 7 in
   (x a = x b /\ y a = y b) /\
   dist a b = Ok 0 /\
   bond_force a b = Ok None /\
   solve_bond a b = Ok (false, a, b) /\
   solve_bond_at [a; b] 0 1 = Ok (false, [a; b]) /\
   (forall v : R, fdiv v 0 = Raise ZeroDivisionError)) /\
  (let a : Atom.t float := Atom.init 0 7 7 in
   let b : Atom.t float := Atom.init 1 7 7 in
   (dist a b = Ok (lit 0) /\ feqb (lit 0 : float) (lit 0) = true) /\
   bond_force a b = Ok None /\
   solve_bond a b = Ok (false, a, b) /\
   solve_bond_at [a; b] 0 1 = Ok (false, [a; b]) /\
   (forall v : float, fdiv v (lit 0) = Raise ZeroDivisionError)).
Proof.
  split.
  - intros a b.
    pose proof (proj1 coincident_particles_no_force a b eq_refl eq_refl) as Hd.
    split; [split; reflexivity|]. split; [exact Hd|].
    exact (proj2 coincident_particles_no_force R reals a b 0 [a; b] 0%nat 1%nat
             Hd zero_is_zero eq_refl eq_refl).
  - intros a b.
    assert (Hd : dist a b = Ok (lit 0)) by (vm_compute; reflexivity).
    assert (Hz : feqb (lit 0 : float) (lit 0) = true) by (vm_compute; reflexivity).
    split; [by split|].
    exact (proj2 coincident_particles_no_force float binary64 a b (lit 0)
             [a; b] 0%nat 1%nat Hd Hz eq_refl eq_refl).
Defined.

(** C10. Exchanging the two arguments exchanges nothing else: the call
    returns the same flag and leaves each of the two atoms with the same
    accumulators as the call in the other order. *)
Theorem solve_bond_symmetric (a b : AtomR) :
  solve_bond b a = swap_pair <$> solve_bond a b.
Proof.
  destruct (apart_or_coincident a b) as [[Hx Hy]|Hab].
  - rewrite (solve_bond_coincident a b), (solve_bond_coincident b a) by done.
    reflexivity.
  - assert (Hba : x b <> x a \/ y b <> y a)
      by (destruct Hab; [left|right]; congruence).
    rewrite (solve_bond_apart a b), (solve_bond_apart b a) by done.
    rewrite pair_force_swap by by apply apart_separation.
    cbn. apply solved_ext; apply atom_ext; lra.
Qed.

(** The same exchange, evaluated in binary64. *)
Example binary64_exchange_of_arguments :
  solve_bond (Atom.mk 1 (lit 3) (lit 4) (fneg (lit 1)) (lit 0.5) (lit 2) (lit 0))
             (Atom.mk 0 (lit 0) (lit 0) (lit 1) (lit 2) (lit 0) (lit 0.1)) =
  swap_pair <$>
    solve_bond (Atom.mk 0 (lit 0) (lit 0) (lit 1) (lit 2) (lit 0) (lit 0.1))
               (Atom.mk 1 (lit 3) (lit 4) (fneg (lit 1)) (lit 0.5) (lit 2) (lit 0)
                  : Atom.t float).
Proof. vm_compute. reflexivity. Qed.

(** **** The integrator *)

Lemma update_exact (a : AtomR) :
  update a =
    Ok (Atom.mk (id a)
          (x a + (vx a + fx a / MASS * DT) * (95 / 100) * DT)
          (y a + (vy a + fy a / MASS * DT) * (95 / 100) * DT)
          ((vx a + fx a / MASS * DT) * (95 / 100))
          ((vy a + fy a / MASS * DT) * (95 / 100))
          0 0).
Proof.
  rewrite update_integrated by apply MASS_nonzero_exact.
  f_equal. unfold integrated. cbn. apply atom_ext; unfold Q2R; cbn; lra.
Qed.

Lemma update_at_rest (a : AtomR) : at_rest a -> update a = Ok a.
Proof.
  intros (Hvx & Hvy & Hfx & Hfy).
  rewrite update_exact, MASS_exact, DT_exact. f_equal.
  destruct a as [i px py pvx pvy pfx pfy]. cbn in *. subst.
  apply atom_ext; lra.
Qed.

(** C5. One call of [update] never raises and does, in this order:
    acceleration = force / MASS, velocity += acceleration * DT, velocity
    *= 0.95, position += the new velocity * DT, force = 0; [id] is kept.
    In binary64 the result is the closed form with each operation rounded
    as the statements round it; in exact arithmetic the fields are as
    listed. *)
Theorem update_is_one_semi_implicit_step :
  (forall a : Atom.t float, update a = Ok (integrated a)) /\
  (forall a : AtomR,
     exists a' : AtomR,
       update a = Ok a' /\
       id a' = id a /\
       vx a' = (vx a + fx a / MASS * DT) * (95 / 100) /\
       vy a' = (vy a + fy a / MASS * DT) * (95 / 100) /\
       x a' = x a + vx a' * DT /\
       y a' = y a + vy a' * DT /\
       fx a' = 0 /\
       fy a' = 0).
Proof.
  split.
  - intros a. apply update_integrated, MASS_nonzero_binary64.
  - intros a. eexists. split; [apply update_exact|]. cbn. by repeat split.
Qed.

(** The position moves with the velocity of the end of the step, not with
    the one of its start. *)
Example update_uses_new_velocity :
  update (Atom.mk 0 (lit 0) (lit 0) (lit 60) (lit 0) (lit 0) (lit 0) : Atom.t float) =
    Ok (Atom.mk 0 (lit 0.95) (lit 0) (lit 57) (lit 0) (lit 0) (lit 0)).
Proof. vm_compute. reflexivity. Qed.

(** **** The rest state *)

Lemma pair_force_at_rest (a b : AtomR) :
  separation a b = BOND_IDEAL_DIST -> at_rest a -> at_rest b ->
  pair_force a b = (0, 0).
Proof.
  intros Hd (Hvxa & Hvya & _) (Hvxb & Hvyb & _).
  unfold pair_force, damping_term, spring_term.
  rewrite Hd, Hvxa, Hvya, Hvxb, Hvyb. f_equal; ring.
Qed.

Lemma ideal_dist_apart (a b : AtomR) :
  separation a b = BOND_IDEAL_DIST -> x a <> x b \/ y a <> y b.
Proof.
  intros Hd. destruct (apart_or_coincident a b) as [Hc|Hne]; [|done].
  apply separation_zero in Hc.
  rewrite Hd, BOND_IDEAL_DIST_exact in Hc. lra.
Qed.

Lemma solve_bond_at_rest (a b : AtomR) :
  separation a b = BOND_IDEAL_DIST -> at_rest a -> at_rest b ->
  solve_bond a b = Ok (true, a, b).
Proof.
  intros Hd Ha Hb.
  rewrite solve_bond_apart by by apply ideal_dist_apart.
  rewrite pair_force_at_rest by done. cbn.
  destruct a, b. cbn. apply solved_ext; apply atom_ext; lra.
Qed.

Lemma init_at_rest (i px py : Z) : at_rest (@Atom.init R _ i px py).
Proof. rewrite init_exact. by repeat split. Qed.

Lemma dist_ideal_example :
  dist (@Atom.init R _ 0 0 0) (Atom.init 1 42 0) = Ok BOND_IDEAL_DIST.
Proof.
  rewrite dist_exact, BOND_IDEAL_DIST_exact. f_equal.
  apply init_separation; lra.
Qed.

(** C4. Two atoms at rest whose distance is exactly the ideal length: the
    force of the pair is zero, the solver leaves both accumulators at zero,
    and the solver call followed by one integrator step gives back the two
    atoms unchanged, positions included. *)
Theorem rest_state_is_fixed_point (a b : AtomR) :
  dist a b = Ok BOND_IDEAL_DIST -> at_rest a -> at_rest b ->
  pair_force a b = (0, 0) /\
  solve_bond a b = Ok (true, a, b) /\
  solver_then_integrator a b = Ok (a, b).
Proof.
  intros Hd Ha Hb. rewrite dist_exact in Hd. injection Hd as Hd.
  split; [by apply pair_force_at_rest|].
  split; [by apply solve_bond_at_rest|].
  unfold solver_then_integrator. rewrite solve_bond_at_rest by done. next.
  rewrite !update_at_rest by done. reflexivity.
Qed.

(** The theorem at the first side of the C4 square. *)
Lemma rest_state_is_fixed_point_witness :
  let a : AtomR := Atom.init 0 0 0 in
  let b : AtomR := Atom.init 1 42 0 in
  (dist a b = Ok BOND_IDEAL_DIST /\ at_rest a /\ at_rest b) /\
  pair_force a b = (0, 0) /\
  solve_bond a b = Ok (true, a, b) /\
  solver_then_integrator a b = Ok (a, b).
Proof.
  intros a b.
  split; [split; [exact dist_ideal_example|split; apply init_at_rest]|].
  exact (rest_state_is_fixed_point a b dist_ideal_example
           (init_at_rest 0 0 0) (init_at_rest 1 42 0)).
Defined.

(** **** The run on the C4 square *)

Lemma solve_bond_at_fixed (l : list AtomR) (i j : nat) (a b : AtomR) :
  l !! i = Some a -> l !! j = Some b ->
  separation a b = BOND_IDEAL_DIST -> at_rest a -> at_rest b ->
  solve_bond_at l i j = Ok (true, l).
Proof.
  intros Hi Hj Hd Ha Hb. unfold solve_bond_at, getitem. rewrite Hi, Hj. next.
  rewrite bond_force_apart by by apply ideal_dist_apart.
  rewrite pair_force_at_rest by done. next. cbn [fneg reals].
  rewrite (list_alter_id _ _ _ apply_force_zero).
  rewrite (list_alter_id _ _ _ apply_force_neg_zero).
  reflexivity.
Qed.

Lemma mapM_update_at_rest (l : list AtomR) :
  Forall at_rest l -> mapM update l = Ok l.
Proof.
  induction 1 as [|a l Ha Hl IH]; [done|].
  cbn [mapM]. rewrite update_at_rest by done. next.
  rewrite IH. reflexivity.
Qed.

Lemma atoms_at_rest : Forall at_rest (@atoms R _).
Proof. unfold atoms. repeat constructor; apply init_at_rest. Qed.

(** A side of the square, ready for [solve_bond_at_fixed]. *)
Ltac side :=
  first [ reflexivity
        | apply init_at_rest
        | rewrite BOND_IDEAL_DIST_exact; apply init_separation; lra ].

Lemma step_square (m : R) :
  step (@atoms R _, m) =
    Ok (atoms, if bool_decide (rest_gap < m) then rest_gap else m).
Proof.
  unfold step, bonds. cbn [for_each].
  rewrite (solve_bond_at_fixed atoms 0 1 (Atom.init 0 0 0) (Atom.init 1 42 0));
    [next|side..].
  rewrite (solve_bond_at_fixed atoms 1 2 (Atom.init 1 42 0) (Atom.init 2 42 42));
    [next|side..].
  rewrite (solve_bond_at_fixed atoms 2 3 (Atom.init 2 42 42) (Atom.init 3 0 42));
    [next|side..].
  rewrite (solve_bond_at_fixed atoms 3 0 (Atom.init 3 0 42) (Atom.init 0 0 0));
    [next|side..].
  rewrite mapM_update_at_rest by apply atoms_at_rest. next.
  change (getitem (@atoms R _) 0) with (Ok (@Atom.init R _ 0 0 0)).
  change (getitem (@atoms R _) 1) with (Ok (@Atom.init R _ 1 42 0)).
  next. rewrite dist_ideal_example. next.
  reflexivity.
Qed.

Lemma repeat_step_square (n : nat) (m : R) :
  repeat_n step n (@atoms R _, m) =
    Ok (atoms,
        match n with
        | O => m
        | _ => if bool_decide (rest_gap < m) then rest_gap else m
        end).
Proof.
  revert m. induction n as [|n IH]; intros m; [done|].
  cbn [repeat_n]. rewrite step_square. next.
  rewrite IH. do 2 f_equal.
  destruct n; [done|].
  repeat case_bool_decide; lra.
Qed.

Lemma verdict_exact (g : R) :
  (verdict g = PASS <-> 5 < g) /\
  (verdict g = WARN <-> 0 < g <= 5) /\
  (verdict g = FAIL <-> g <= 0).
Proof.
  unfold verdict. cbn. unfold Q2R. cbn.
  rewrite !Rmult_0_l.
  replace (50 * / 10) with 5 by lra.
  destruct (bool_decide_reflect (5 < g)); destruct (bool_decide_reflect (0 < g));
    repeat split; intros; try done; try lra.
Qed.

(** The run of the script: the square is at rest at the ideal length and
    stays there. *)
Lemma main_exact :
  @main R _ = Ok (mkReport BOND_IDEAL_DIST rest_gap rest_gap PASS).
Proof.
  unfold main, run_from. rewrite repeat_step_square. next.
  change (getitem (@atoms R _) 0) with (Ok (@Atom.init R _ 0 0 0)).
  change (getitem (@atoms R _) 1) with (Ok (@Atom.init R _ 1 42 0)).
  next. rewrite dist_ideal_example. next.
  cbn [fsub fltb reals]. fold rest_gap.
  assert (Hm : (if bool_decide (rest_gap < @lit R _ 1000.0)
                then rest_gap else lit 1000.0) = rest_gap).
  { rewrite bool_decide_eq_true_2; [done|]. rewrite rest_gap_exact. literals. }
  rewrite Hm.
  assert (Hv : verdict rest_gap = PASS).
  { apply verdict_exact. rewrite rest_gap_exact. lra. }
  rewrite Hv. reflexivity.
Qed.

(** C2. With the constants of the script and the C4 square, the 300 steps
    run without an exception and leave the bond 0-1 within 0.5 of 42.0; with
    the diameter 23.8 the final gap is above 5.0 and the verdict printed is
    PASS. This holds for the run in binary64 and for the run in exact
    arithmetic. *)
Theorem default_run_converges_and_passes :
  (exists r : Report,
     @main float _ = Ok r /\
     fltb (lit 41.5) (final_dist r) = true /\
     fltb (final_dist r) (lit 42.5) = true /\
     fltb (lit 5.0) (final_gap r) = true /\
     printed r = PASS) /\
  (exists r : Report,
     @main R _ = Ok r /\
     42 - 5 / 10 <= final_dist r <= 42 + 5 / 10 /\
     ATOM_DIAMETER_PX = 238 / 10 /\
     5 < final_gap r /\
     printed r = PASS).
Proof.
  split.
  - eexists. split; [apply main_binary64|]. by vm_compute.
  - eexists. split; [apply main_exact|]. cbn [final_dist final_gap printed].
    rewrite BOND_IDEAL_DIST_exact, rest_gap_exact, ATOM_DIAMETER_PX_exact.
    repeat split; lra.
Qed.

(** C7. Whatever the start and the number of steps, a run that reaches the
    results section prints the verdict of its final gap alone, and the final
    gap is the final bond length minus the diameter: PASS exactly above 5.0,
    WARN exactly in (0, 5.0], FAIL exactly at or below 0. *)
Theorem verdict_by_final_gap (atoms0 : list AtomR) (n : nat) (r : Report) :
  run_from atoms0 n = Ok r ->
  final_gap r = final_dist r - ATOM_DIAMETER_PX /\
  (printed r = PASS <-> 5 < final_gap r) /\
  (printed r = WARN <-> 0 < final_gap r <= 5) /\
  (printed r = FAIL <-> final_gap r <= 0).
Proof.
  intros Hrun. apply run_from_report in Hrun as [Hgap ->].
  split; [exact Hgap|]. apply verdict_exact.
Qed.

(** The theorem at the run of the script. *)
Lemma verdict_by_final_gap_witness :
  let r := mkReport BOND_IDEAL_DIST rest_gap rest_gap PASS in
  run_from atoms 300 = Ok r /\
  final_gap r = final_dist r - ATOM_DIAMETER_PX /\
  (printed r = PASS <-> 5 < final_gap r) /\
  (printed r = WARN <-> 0 < final_gap r <= 5) /\
  (printed r = FAIL <-> final_gap r <= 0).
Proof.
  intros r. split; [exact main_exact|].
  exact (verdict_by_final_gap atoms 300 r main_exact).
Defined.

(** C9. In a run of at least one step the tracked minimum gap is at most the
    final gap: the gap of the last step is the final gap, and the minimum
    has been compared with it. This holds for every start, hence in
    particular for a monotonic approach from an overlap. *)
Theorem min_gap_bounds_final_gap (atoms0 : list AtomR) (n : nat) (r : Report) :
  run_from atoms0 (S n) = Ok r -> min_gap r <= final_gap r.
Proof.
  unfold run_from. rewrite repeat_n_snoc.
  destruct (repeat_n step n _) as [[l1 m1]|e]; next; [|done].
  destruct (step (l1, m1)) as [[l2 m2]|e] eqn:Hstep; next; [|done].
  apply step_tracks_gap in Hstep as (a0 & a1 & d & H0 & H1 & Hd & ->).
  rewrite H0, H1. next. rewrite Hd. next.
  intros [= <-]. cbn [min_gap final_gap fsub fltb reals].
  case_bool_decide; lra.
Qed.

(** The theorem at the run of the script, 300 = 299 + 1 steps. *)
Lemma min_gap_bounds_final_gap_witness :
  let r := mkReport BOND_IDEAL_DIST rest_gap rest_gap PASS in
  run_from atoms (S 299) = Ok r /\ min_gap r <= final_gap r.
Proof.
  intros r. split; [exact main_exact|].
  exact (min_gap_bounds_final_gap atoms 299 r main_exact).
Defined.

End Exact.
End PhysicsFacts.

(** ** More on the physics diagnostic *)

Module PhysicsMore.
Import Atom Physics PhysicsSpec PhysicsTerms PhysicsFacts.

(** *** The solver and the loop, in any arithmetic *)

Section AnyArithmetic.
Context {F : Type} `{PyFloat F}.

Lemma apply_force_kinematics (a : Atom.t F) (gx gy : F) :
  kinematics (apply_force a gx gy) = kinematics a.
Proof. reflexivity. Qed.

Lemma solve_bond_inv (a b a' b' : Atom.t F) (flag : bool) :
  solve_bond a b = Ok (flag, a', b') ->
  (flag = false /\ a' = a /\ b' = b) \/
  (flag = true /\ exists gx gy,
     bond_force a b = Ok (Some (gx, gy)) /\
     a' = apply_force a gx gy /\ b' = apply_force b (fneg gx) (fneg gy)).
Proof.
  unfold solve_bond. destruct (bond_force a b) as [[[gx gy]|]|e]; next; [| |done].
  - intros [= <- <- <-]. right. split; [done|]. by exists gx, gy.
  - intros [= <- <- <-]. by left.
Qed.

(** A call of [solve_bond] that returns writes nothing but the two
    accumulators: id, position and velocity of both atoms are kept, and a
    call that returns [False] keeps the accumulators too. *)
Theorem solve_bond_writes_accumulators_only
    (a b a' b' : Atom.t F) (flag : bool) :
  solve_bond a b = Ok (flag, a', b') ->
  kinematics a' = kinematics a /\ kinematics b' = kinematics b /\
  (flag = false -> a' = a /\ b' = b).
Proof.
  intros Hs.
  apply solve_bond_inv in Hs as [(-> & -> & ->)|(-> & gx & gy & _ & -> & ->)].
  - done.
  - by repeat split.
Qed.

Lemma getitem_Ok {A} (l : list A) (i : nat) (v : A) :
  getitem l i = Ok v <-> l !! i = Some v.
Proof. unfold getitem. destruct (l !! i); split; congruence. Qed.

Lemma getitem_out_of_range {A} (l : list A) (i : nat) :
  (length l <= i)%nat -> getitem l i = Raise IndexError.
Proof. intros Hi. unfold getitem. by rewrite lookup_ge_None_2. Qed.

Lemma solve_bond_at_missing (l : list (Atom.t F)) (i j : nat) :
  (length l <= i)%nat \/ (length l <= j)%nat ->
  solve_bond_at l i j = Raise IndexError.
Proof.
  intros Hij. unfold solve_bond_at.
  destruct (decide (length l <= i)%nat) as [Hi|Hi].
  - by rewrite (getitem_out_of_range l i).
  - destruct Hij as [?|Hj]; [done|].
    destruct (getitem l i) as [a|e] eqn:Ha; next.
    + by rewrite (getitem_out_of_range l j).
    + unfold getitem in Ha. destruct (l !! i); congruence.
Qed.

(** An index past the end of the list raises [IndexError], before any
    arithmetic on the atoms. *)
Theorem solve_bond_at_out_of_range (l : list (Atom.t F)) (i j : nat) :
  (length l <= i)%nat \/ (length l <= j)%nat ->
  solve_bond_at l i j = Raise IndexError.
Proof. apply solve_bond_at_missing. Qed.

Lemma solve_bond_at_inv (l l' : list (Atom.t F)) (i j : nat) (flag : bool) :
  solve_bond_at l i j = Ok (flag, l') ->
  exists a b, l !! i = Some a /\ l !! j = Some b /\
   ((flag = false /\ l' = l) \/
    (flag = true /\ exists gx gy,
       bond_force a b = Ok (Some (gx, gy)) /\
       l' = alter (fun b => apply_force b (fneg gx) (fneg gy)) j
              (alter (fun a => apply_force a gx gy) i l))).
Proof.
  unfold solve_bond_at.
  destruct (getitem l i) as [a|e] eqn:Ha; next; [|done].
  destruct (getitem l j) as [b|e] eqn:Hb; next; [|done].
  apply getitem_Ok in Ha, Hb.
  destruct (bond_force a b) as [[[gx gy]|]|e] eqn:Hf; next; [| |done].
  - intros [= <- <-]. exists a, b. repeat split; [done..|]. right.
    split; [done|]. by exists gx, gy.
  - intros [= <- <-]. exists a, b. repeat split; [done..|]. by left.
Qed.

Lemma fmap_alter_kinematics (f : Atom.t F -> Atom.t F) (i : nat)
    (l : list (Atom.t F)) :
  (forall a, kinematics (f a) = kinematics a) ->
  kinematics <$> alter f i l = kinematics <$> l.
Proof.
  intros Hf. revert i. induction l as [|a l IH]; intros [|i]; cbn; [done..| |].
  - by rewrite Hf.
  - f_equal. apply IH.
Qed.

Lemma solve_bond_at_kept (l l' : list (Atom.t F)) (i j : nat) (flag : bool) :
  solve_bond_at l i j = Ok (flag, l') ->
  (i < length l)%nat /\ (j < length l)%nat /\
  length l' = length l /\
  kinematics <$> l' = kinematics <$> l /\
  (forall k : nat, k <> i -> k <> j -> l' !! k = l !! k).
Proof.
  intros Hs. apply solve_bond_at_inv in Hs as (a & b & Hi & Hj & Hcase).
  split; [by eapply lookup_lt_Some|]. split; [by eapply lookup_lt_Some|].
  destruct Hcase as [[_ ->]|(_ & gx & gy & _ & ->)]; [done|].
  split; [by rewrite !length_alter|].
  split.
  - rewrite !fmap_alter_kinematics; [done|intros; apply apply_force_kinematics..].
  - intros k Hki Hkj. by rewrite !list_lookup_alter_ne.
Qed.

(** A call [solve_bond(atoms[i], atoms[j])] that returns had both indices
    in range, keeps the length of the list, moves no atom (ids, positions
    and velocities are as before) and leaves every atom other than the two
    untouched. *)
Theorem solve_bond_at_frame (l l' : list (Atom.t F)) (i j : nat) (flag : bool) :
  solve_bond_at l i j = Ok (flag, l') ->
  (i < length l)%nat /\ (j < length l)%nat /\
  length l' = length l /\
  kinematics <$> l' = kinematics <$> l /\
  (forall k : nat, k <> i -> k <> j -> l' !! k = l !! k).
Proof. apply solve_bond_at_kept. Qed.

Lemma mapM_Ok {A B} (f : A -> result B) (l : list A) (k : list B) :
  mapM f l = Ok k <-> Forall2 (fun a b => f a = Ok b) l k.
Proof.
  revert k. induction l as [|a l IH]; intros k; cbn [mapM].
  - split; [intros [= <-]; constructor|by inversion 1].
  - destruct (f a) as [b|e] eqn:Hb; next.
    + destruct (mapM f l) as [k'|e]; next.
      * split.
        -- intros [= <-]. constructor; [done|]. by apply IH.
        -- inversion 1 as [|? b' ? k'' Hb' Hk]; subst. rewrite Hb in Hb'.
           injection Hb' as ->. apply IH in Hk. by injection Hk as ->.
      * split; [done|]. inversion 1 as [|? b' ? k'' Hb' Hk]; subst.
        by apply IH in Hk.
    + split; [done|]. inversion 1 as [|? b' ? k'' Hb' Hk]; subst. congruence.
Qed.

Lemma update_inv (a a' : Atom.t F) :
  update a = Ok a' -> id a' = id a /\ unloaded a'.
Proof.
  unfold update.
  destruct (fdiv (fx a) MASS) as [ax|e]; next; [|done].
  destruct (fdiv (fy a) MASS) as [ay|e]; next; [|done].
  by intros [= <-].
Qed.

Lemma for_each_bonds_frame (bs : list (nat * nat)) (l l' : list (Atom.t F)) :
  for_each (fun atoms '(i, j) => snd <$> solve_bond_at atoms i j) bs l = Ok l' ->
  kinematics <$> l' = kinematics <$> l.
Proof.
  revert l. induction bs as [|[i j] bs IH]; intros l; cbn [for_each].
  - by intros [= <-].
  - destruct (solve_bond_at l i j) as [[flag l1]|e] eqn:Hs; next; [|done].
    intros Hrest. apply IH in Hrest. rewrite Hrest.
    by apply solve_bond_at_kept in Hs as (_ & _ & _ & Hk & _).
Qed.

Lemma step_inv (l l' : list (Atom.t F)) (m m' : F) :
  step (l, m) = Ok (l', m') ->
  id <$> l' = id <$> l /\ Forall unloaded l'.
Proof.
  unfold step.
  destruct (for_each _ bonds l) as [l1|e] eqn:Hb; next; [|done].
  destruct (mapM update l1) as [l2|e] eqn:Hu; next; [|done].
  destruct (getitem l2 0) as [a0|e]; next; [|done].
  destruct (getitem l2 1) as [a1|e]; next; [|done].
  destruct (dist a0 a1) as [d|e]; next; [|done].
  intros [= <- <-].
  apply for_each_bonds_frame in Hb. apply mapM_Ok in Hu.
  assert (Hid : id <$> l1 = id <$> l).
  { apply (f_equal (fmap (fun k : Z * F * F * F * F => k.1.1.1.1))) in Hb.
    rewrite <- !list_fmap_compose in Hb. exact Hb. }
  rewrite <- Hid. clear Hb Hid.
  induction Hu as [|a a' l1 l2 Ha _ [IH1 IH2]]; [done|].
  apply update_inv in Ha as (Hi & Hun). cbn. rewrite Hi, IH1.
  split; [done|]. by constructor.
Qed.

(** However many steps the loop runs, it holds the same atoms: the list of
    ids, hence its length, is the one it started with; and after at least
    one step every accumulator is the [0.0] that [update] wrote. *)
Theorem run_keeps_the_atoms (n : nat) (l l' : list (Atom.t F)) (m m' : F) :
  repeat_n step n (l, m) = Ok (l', m') ->
  id <$> l' = id <$> l /\ length l' = length l /\
  (n <> 0%nat -> Forall unloaded l').
Proof.
  revert l m. induction n as [|n IH]; intros l m; cbn [repeat_n].
  - intros [= <- <-]. by repeat split.
  - destruct (step (l, m)) as [[l1 m1]|e] eqn:Hs; next; [|done].
    intros Hrest. apply step_inv in Hs as [Hid Hun].
    destruct (IH _ _ Hrest) as (Hid' & Hlen' & Hun').
    assert (Hl1 : length l1 = length l).
    { by rewrite <- (length_fmap id l1), Hid, length_fmap. }
    split; [congruence|]. split; [congruence|]. intros _.
    destruct n as [|n]; [|by apply Hun'].
    cbn in Hrest. by injection Hrest as <- <-.
Qed.

Lemma run_short (l : list (Atom.t F)) (n : nat) :
  (length l < 2)%nat -> run_from l n = Raise IndexError.
Proof.
  intros Hlen. unfold run_from.
  destruct n as [|n]; cbn [repeat_n]; next.
  - destruct l as [|a [|b l]]; [done|done|cbn in Hlen; lia].
  - assert (Hs : step (l, lit 1000.0) = Raise IndexError).
    { unfold step, bonds. cbn [for_each].
      rewrite solve_bond_at_missing by (right; lia). reflexivity. }
    by rewrite Hs.
Qed.

(** With fewer than two atoms the script raises [IndexError], whatever the
    number of steps: at the first bond, or with no step at the read of
    [atoms[1]]. *)
Theorem run_needs_two_atoms (l : list (Atom.t F)) (n : nat) :
  (length l < 2)%nat -> run_from l n = Raise IndexError.
Proof. apply run_short. Qed.

End AnyArithmetic.

(** *** Binary64 *)

Section Binary64.

(** The theorem at the stretched bond of 50 px. *)
Lemma solve_bond_writes_accumulators_only_witness :
  let a : Atom.t float := Atom.init 0 0 0 in
  let b : Atom.t float := Atom.init 1 50 0 in
  let a' := Atom.mk 0 (lit 0) (lit 0) (lit 0) (lit 0) (lit 64) (lit 0) in
  let b' := Atom.mk 1 (lit 50) (lit 0) (lit 0) (lit 0) (fneg (lit 64)) (lit 0) in
  solve_bond a b = Ok (true, a', b') /\
  kinematics a' = kinematics a /\ kinematics b' = kinematics b /\
  (true = false -> a' = a /\ b' = b).
Proof.
  intros a b a' b'. split; [exact solve_bond_binary64_stretched|].
  exact (solve_bond_writes_accumulators_only a b a' b' true
           solve_bond_binary64_stretched).
Defined.

(** The theorem at index 4 of the four atoms of the square. *)
Lemma solve_bond_at_out_of_range_witness :
  ((length (@atoms float _) <= 0)%nat \/ (length (@atoms float _) <= 4)%nat) /\
  solve_bond_at (@atoms float _) 0 4 = Raise IndexError.
Proof.
  assert (Hlen : (length (@atoms float _) <= 0)%nat \/
                 (length (@atoms float _) <= 4)%nat) by (right; cbn; lia).
  split; [exact Hlen|].
  exact (solve_bond_at_out_of_range atoms 0 4 Hlen).
Defined.

Lemma stretched_pair_solved :
  solve_bond_at [@Atom.init float _ 0 0 0; Atom.init 1 50 0] 0 1 =
    Ok (true,
        [Atom.mk 0 (lit 0) (lit 0) (lit 0) (lit 0) (lit 64) (lit 0);
         Atom.mk 1 (lit 50) (lit 0) (lit 0) (lit 0) (fneg (lit 64)) (lit 0)]).
Proof. vm_compute. reflexivity. Qed.

(** The theorem at the stretched bond, held in a list of two atoms. *)
Lemma solve_bond_at_frame_witness :
  let l : list (Atom.t float) := [Atom.init 0 0 0; Atom.init 1 50 0] in
  let l' : list (Atom.t float) :=
    [Atom.mk 0 (lit 0) (lit 0) (lit 0) (lit 0) (lit 64) (lit 0);
     Atom.mk 1 (lit 50) (lit 0) (lit 0) (lit 0) (fneg (lit 64)) (lit 0)] in
  solve_bond_at l 0 1 = Ok (true, l') /\
  (0 < length l)%nat /\ (1 < length l)%nat /\
  length l' = length l /\
  kinematics <$> l' = kinematics <$> l /\
  (forall k : nat, k <> 0%nat -> k <> 1%nat -> l' !! k = l !! k).
Proof.
  intros l l'. split; [exact stretched_pair_solved|].
  exact (solve_bond_at_frame l l' 0 1 true stretched_pair_solved).
Defined.

Lemma loop_binary64 :
  repeat_n step 300 (@atoms float _, lit 1000.0) =
    Ok (atoms, fsub BOND_IDEAL_DIST ATOM_DIAMETER_PX).
Proof. vm_compute. reflexivity. Qed.

(** The theorem at the 300 steps of the script. *)
Lemma run_keeps_the_atoms_witness :
  repeat_n step 300 (@atoms float _, lit 1000.0) =
    Ok (atoms, fsub BOND_IDEAL_DIST ATOM_DIAMETER_PX) /\
  id <$> @atoms float _ = id <$> atoms /\
  length (@atoms float _) = length (@atoms float _) /\
  (300%nat <> 0%nat -> Forall unloaded (@atoms float _)).
Proof.
  split; [exact loop_binary64|].
  exact (run_keeps_the_atoms 300 atoms atoms (lit 1000.0)
           (fsub BOND_IDEAL_DIST ATOM_DIAMETER_PX) loop_binary64).
Defined.

(** The theorem at a single atom. *)
Lemma run_needs_two_atoms_witness :
  (length [@Atom.init float _ 0 0 0] < 2)%nat /\
  run_from [@Atom.init float _ 0 0 0] 300 = Raise IndexError.
Proof.
  assert (Hlen : (length [@Atom.init float _ 0 0 0] < 2)%nat) by (cbn; lia).
  split; [exact Hlen|].
  exact (run_needs_two_atoms [Atom.init 0 0 0] 300 Hlen).
Defined.

(** Python's [**] raises on overflow: two atoms whose x coordinates differ
    by a finite amount whose square is not finite make [dist], and with it
    the solver, raise [OverflowError]. *)
Theorem dist_overflow_binary64 (a b : Atom.t float) :
  let u := PrimFloat.sub (x a) (x b) in
  PrimFloat.is_nan u = false ->
  PrimFloat.is_infinity u = false ->
  PrimFloat.is_infinity (PrimFloat.mul u u) = true ->
  dist a b = Raise OverflowError /\
  solve_bond a b = Raise OverflowError /\
  (forall (l : list (Atom.t float)) (i j : nat),
     l !! i = Some a -> l !! j = Some b ->
     solve_bond_at l i j = Raise OverflowError).
Proof.
  intros u Hnan Hinf Hover.
  assert (Hd : dist a b = Raise OverflowError).
  { unfold dist. cbn [fsquare fsub binary64]. unfold float_square.
    fold u. by rewrite Hnan, Hinf, Hover. }
  assert (Hf : bond_force a b = Raise OverflowError).
  { unfold bond_force. by rewrite Hd. }
  split; [done|]. split.
  - unfold solve_bond. by rewrite Hf.
  - intros l i j Hi Hj. unfold solve_bond_at, getitem. rewrite Hi, Hj. next.
    by rewrite Hf.
Qed.

(** The theorem at the origin and the atom at x = 2^992. *)
Lemma dist_overflow_binary64_witness :
  dist (Atom.init 0 0 0) far = Raise OverflowError /\
  solve_bond (Atom.init 0 0 0) far = Raise OverflowError /\
  (forall (l : list (Atom.t float)) (i j : nat),
     l !! i = Some (Atom.init 0 0 0) -> l !! j = Some far ->
     solve_bond_at l i j = Raise OverflowError).
Proof.
  apply (dist_overflow_binary64 (Atom.init 0 0 0) far); vm_compute; reflexivity.
Defined.

End Binary64.

(** *** Exact arithmetic *)

Section Exact.
Local Open Scope R_scope.









(** **** Exceptions of the run *)








(** **** Conservation *)

Lemma total_alter (g : AtomR -> R) (f : AtomR -> AtomR) (l : list AtomR)
    (i : nat) (a : AtomR) :
  l !! i = Some a -> total g (alter f i l) = total g l - g a + g (f a).
Proof.
  revert i. induction l as [|b l IH]; intros [|i] Hi; try done.
  - injection Hi as ->. cbn. lra.
  - change (g b + total g (alter f i l) = g b + total g l - g a + g (f a)).
    rewrite (IH i Hi). lra.
Qed.


Lemma solve_bond_at_totals (l l' : list AtomR) (i j : nat) (flag : bool) :
  solve_bond_at l i j = Ok (flag, l') ->
  total fx l' = total fx l /\ total fy l' = total fy l.
Proof.
  intros Hs. apply solve_bond_at_inv in Hs as (a & b & Hi & Hj & Hcase).
  destruct Hcase as [[_ ->]|(_ & gx & gy & _ & ->)]; [done|].
  set (l1 := alter (fun a0 : AtomR => apply_force a0 gx gy) i l).
  assert (Hb1 : is_Some (l1 !! j)).
  { apply lookup_lt_is_Some. unfold l1. rewrite length_alter.
    by eapply lookup_lt_Some. }
  destruct Hb1 as [b1 Hb1].
  rewrite !(total_alter _ _ l1 j b1 Hb1). unfold l1.
  rewrite !(total_alter _ _ l i a Hi).
  rewrite !apply_force_exact. cbn. split; lra.
Qed.

(** Newton's third law on the list: a solver call that returns leaves the
    sum of the x accumulators and the sum of the y accumulators of all
    atoms as they were, also when both indices name the same atom. *)
Theorem solve_bond_at_conserves_total_force
    (l l' : list AtomR) (i j : nat) (flag : bool) :
  solve_bond_at l i j = Ok (flag, l') ->
  total fx l' = total fx l /\ total fy l' = total fy l.
Proof. apply solve_bond_at_totals. Qed.

Lemma stretched_pair_solved_exact :
  solve_bond_at [@Atom.init R _ 0 0 0; Atom.init 1 50 0] 0 1 =
    Ok (true,
        [apply_force (Atom.init 0 0 0) 64 0;
         apply_force (Atom.init 1 50 0) (- 64) (- 0)]).
Proof.
  unfold solve_bond_at.
  change (getitem [@Atom.init R _ 0 0 0; Atom.init 1 50 0] 0)
    with (Ok (@Atom.init R _ 0 0 0)).
  change (getitem [@Atom.init R _ 0 0 0; Atom.init 1 50 0] 1)
    with (Ok (@Atom.init R _ 1 50 0)).
  next. rewrite bond_force_apart by apply stretched_apart.
  rewrite pair_force_stretched. reflexivity.
Qed.

(** The theorem at the stretched bond of 50 px, held in a list of two
    atoms. *)
Lemma solve_bond_at_conserves_total_force_witness :
  let l : list AtomR := [Atom.init 0 0 0; Atom.init 1 50 0] in
  let l' : list AtomR :=
    [apply_force (Atom.init 0 0 0) 64 0;
     apply_force (Atom.init 1 50 0) (- 64) (- 0)] in
  solve_bond_at l 0 1 = Ok (true, l') /\
  total fx l' = total fx l /\ total fy l' = total fy l.
Proof.
  intros l l'. split; [exact stretched_pair_solved_exact|].
  exact (solve_bond_at_conserves_total_force l l' 0 1 true
           stretched_pair_solved_exact).
Defined.






(** **** The tracked minimum *)

Lemma step_min_gap (l l' : list AtomR) (m m' : R) :
  step (l, m) = Ok (l', m') -> m' <= m.
Proof.
  intros Hs. apply step_tracks_gap in Hs as (a0 & a1 & d & _ & _ & _ & ->).
  cbn [fltb fsub reals]. case_bool_decide; lra.
Qed.

Lemma repeat_step_min_gap (n : nat) (l l' : list AtomR) (m m' : R) :
  repeat_n step n (l, m) = Ok (l', m') -> m' <= m.
Proof.
  revert l m. induction n as [|n IH]; intros l m; cbn [repeat_n].
  - intros [= <- <-]. lra.
  - destruct (step (l, m)) as [[l1 m1]|e] eqn:Hs; next; [|done].
    intros Hrest. apply IH in Hrest. apply step_min_gap in Hs. lra.
Qed.

(** [min_gap] only goes down: it starts at 1000.0, so it never exceeds
    1000, and one more step never raises it. *)
Theorem min_gap_never_rises (atoms0 : list AtomR) (n : nat) (r r' : Report) :
  run_from atoms0 n = Ok r -> run_from atoms0 (S n) = Ok r' ->
  min_gap r' <= min_gap r /\ min_gap r <= 1000.
Proof.
  unfold run_from. rewrite repeat_n_snoc.
  destruct (repeat_n step n _) as [[l1 m1]|e] eqn:Hn; next; [|done].
  apply repeat_step_min_gap in Hn.
  destruct (getitem l1 0) as [a0|e]; next; [|done].
  destruct (getitem l1 1) as [a1|e]; next; [|done].
  destruct (dist a0 a1) as [d|e]; next; [|done].
  intros [= <-].
  destruct (step (l1, m1)) as [[l2 m2]|e] eqn:Hs; next; [|done].
  apply step_min_gap in Hs.
  destruct (getitem l2 0) as [b0|e]; next; [|done].
  destruct (getitem l2 1) as [b1|e]; next; [|done].
  destruct (dist b0 b1) as [d'|e]; next; [|done].
  intros [= <-]. cbn [min_gap]. split; [done|].
  revert Hn. cbn. unfold Q2R. cbn. lra.
Qed.

Lemma run_square (n : nat) :
  run_from (@atoms R _) (S n) =
    Ok (mkReport BOND_IDEAL_DIST rest_gap rest_gap PASS).
Proof.
  unfold run_from. rewrite repeat_step_square. next.
  change (getitem (@atoms R _) 0) with (Ok (@Atom.init R _ 0 0 0)).
  change (getitem (@atoms R _) 1) with (Ok (@Atom.init R _ 1 42 0)).
  next. rewrite dist_ideal_example. next.
  cbn [fsub fltb reals]. fold rest_gap.
  assert (Hm : (if bool_decide (rest_gap < @lit R _ 1000.0)
                then rest_gap else lit 1000.0) = rest_gap).
  { rewrite bool_decide_eq_true_2; [done|]. rewrite rest_gap_exact.
    cbn. unfold Q2R. cbn. lra. }
  rewrite Hm.
  assert (Hv : verdict rest_gap = PASS).
  { apply verdict_exact. rewrite rest_gap_exact. lra. }
  rewrite Hv. reflexivity.
Qed.

(** The theorem at steps 299 and 300 of the script. *)
Lemma min_gap_never_rises_witness :
  let r := mkReport BOND_IDEAL_DIST rest_gap rest_gap PASS in
  (run_from (@atoms R _) 299 = Ok r /\ run_from (@atoms R _) 300 = Ok r) /\
  min_gap r <= min_gap r /\ min_gap r <= 1000.
Proof.
  intros r. split; [split; [exact (run_square 298)|exact (run_square 299)]|].
  exact (min_gap_never_rises atoms 299 r r (run_square 298) (run_square 299)).
Defined.

End Exact.
End PhysicsMore.

(** ** More on the topology auditor *)

Module AuditMore.
Import Audit AuditReport AuditSpec AuditFacts.

Lemma elem_of_children_in_log (c p : Z) (events : list BondEvent) :
  c ∈ children_in_log p events <-> (c, p) ∈ events.
Proof.
  unfold children_in_log. rewrite list_elem_of_fmap. split.
  - intros ([c' p'] & -> & Hin). apply list_elem_of_filter in Hin as [Hp Hin].
    cbn in Hp. by subst.
  - intros Hin. exists (c, p). split; [done|]. by apply list_elem_of_filter.
Qed.

Lemma connections_default (events : list BondEvent) (p : Z) :
  default [] (connections (build_graph events) !! p) = children_in_log p events.
Proof. rewrite connections_build. by destruct (children_in_log p events). Qed.

Lemma connections_Some (events : list BondEvent) (p : Z) (l : list Z) :
  connections (build_graph events) !! p = Some l <->
  l = children_in_log p events /\ l <> [].
Proof.
  rewrite connections_build. destruct (children_in_log p events) as [|c k].
  - split; [done|]. by intros [-> ?].
  - split; [by intros [= <-]|]. by intros [-> _].
Qed.

(** The two dictionaries agree with each other: the recorded parent of a
    child lists that child among its children; every listed child has a
    recorded parent; no parent is mapped to an empty list, so that
    [p in connections] means that [p] has a child; and a child has no
    recorded parent exactly when no event names it. *)
Theorem graph_is_consistent (events : list BondEvent) :
  (forall c p : Z,
     parent_of (build_graph events) !! c = Some p ->
     c ∈ default [] (connections (build_graph events) !! p)) /\
  (forall c p : Z,
     c ∈ default [] (connections (build_graph events) !! p) ->
     is_Some (parent_of (build_graph events) !! c)) /\
  (forall (p : Z) (l : list Z),
     connections (build_graph events) !! p = Some l -> l <> []) /\
  (forall c : Z,
     parent_of (build_graph events) !! c = None <-> forall p, (c, p) ∉ events).
Proof.
  split; [|split; [|split]].
  - intros c p. rewrite parent_of_build, connections_default.
    unfold last_parent_in_log. rewrite fmap_Some.
    intros ([c' p'] & Hlast & ->). apply elem_of_children_in_log.
    apply last_Some_elem_of, list_elem_of_filter in Hlast as [Hc Hin].
    cbn in *. by subst.
  - intros c p. rewrite parent_of_build, connections_default.
    rewrite elem_of_children_in_log. intros Hin.
    unfold last_parent_in_log. rewrite fmap_is_Some.
    destruct (last (filter _ events)) eqn:Hl; [done|].
    apply last_None in Hl.
    assert ((c, p) ∈ filter (fun e : Z * Z => e.1 = c) events) as Hf
      by by apply list_elem_of_filter.
    rewrite Hl in Hf. by apply elem_of_nil in Hf.
  - intros p l Hp. by apply connections_Some in Hp as [_ ?].
  - intros c. rewrite parent_of_build. unfold last_parent_in_log.
    rewrite fmap_None, last_None. split.
    + intros Hnil p Hin.
      assert ((c, p) ∈ filter (fun e : Z * Z => e.1 = c) events) as Hf
        by by apply list_elem_of_filter.
      rewrite Hnil in Hf. by apply elem_of_nil in Hf.
    + intros Hno. destruct (filter _ events) as [|[c' p'] k] eqn:Hf; [done|].
      assert ((c', p') ∈ filter (fun e : Z * Z => e.1 = c) events) as Hin
        by (rewrite Hf; left).
      apply list_elem_of_filter in Hin as [Hc Hin]. cbn in Hc. subst.
      by destruct (Hno p').
Qed.

Lemma root_count_perm (events events' : list BondEvent) :
  events ≡ₚ events' -> root_count events = root_count events'.
Proof.
  intros Hp. unfold root_count, children_in_log.
  rewrite !length_fmap. by rewrite Hp.
Qed.

Lemma analyze_logs_permuted (events events' : list BondEvent) :
  events ≡ₚ events' -> analyze_logs events = analyze_logs events'.
Proof.
  intros Hp. rewrite !analyze_logs_by_root_count. by rewrite (root_count_perm _ _ Hp).
Qed.

Lemma root_count_app (l k : list BondEvent) :
  root_count (l ++ k) = (root_count l + root_count k)%nat.
Proof.
  unfold root_count, children_in_log.
  by rewrite filter_app, fmap_app, length_app.
Qed.

Lemma analyze_logs_appended (l k : list BondEvent) :
  analyze_logs l <> [] ->
  analyze_logs (l ++ k) = [violation_text (root_count l + root_count k)].
Proof.
  rewrite !analyze_logs_by_root_count, root_count_app.
  destruct (decide (root_count l <= 1)%nat); [done|]. intros _.
  destruct (decide (root_count l + root_count k <= 1)%nat); [lia|done].
Qed.

Lemma root_count_root_events (events : list BondEvent) :
  root_count (filter (fun e => e.2 = 0%Z) events) = root_count events.
Proof.
  unfold root_count, children_in_log. rewrite !length_fmap.
  cut (filter (fun e : Z * Z => e.2 = 0%Z) (filter (fun e : Z * Z => e.2 = 0%Z) events)
       = filter (fun e : Z * Z => e.2 = 0%Z) events); [by intros ->|].
  induction events as [|e events IH]; [done|].
  destruct (decide (e.2 = 0%Z)) as [He|He].
  - rewrite !(filter_cons_True _ e) by done. exact (f_equal (cons e) IH).
  - by rewrite !(filter_cons_False _ e events) by done.
Qed.

(** Only the events whose parent is the player enter the audit: dropping
    all the others from the log gives the same violations. *)
Theorem analyze_logs_root_events_only (events : list BondEvent) :
  analyze_logs (filter (fun e => e.2 = 0%Z) events) = analyze_logs events.
Proof.
  rewrite !analyze_logs_by_root_count. by rewrite root_count_root_events.
Qed.

Lemma elem_of_player_lines_chain (g : BondGraph) (c1 c2 : Z) :
  ChainLine c1 c2 ∉ player_lines g.
Proof.
  unfold player_lines. destruct (connections g !! 0%Z) as [children|]; [|apply not_elem_of_nil].
  rewrite elem_of_cons. intros [?|Hin]; [done|].
  apply list_elem_of_omap in Hin as (c & _ & Hc).
  by destruct (connections g !! c).
Qed.

Lemma elem_of_result_lines_chain (vs : list string) (c1 c2 : Z) :
  ChainLine c1 c2 ∉ result_lines vs.
Proof.
  unfold result_lines. destruct vs as [|v vs].
  - rewrite !elem_of_cons, elem_of_nil. intros [?|[?|[]]]; done.
  - rewrite elem_of_cons, list_elem_of_fmap. intros [?|(? & ? & _)]; done.
Qed.

Lemma elem_of_chain_lines (events : list BondEvent) (ln : Line) :
  ln ∈ chain_lines (build_graph events) <->
  exists c1 c2, ln = ChainLine c1 c2 /\ (c1, 0%Z) ∈ events /\ (c2, c1) ∈ events.
Proof.
  unfold chain_lines. split.
  - destruct (connections _ !! 0%Z) as [children|] eqn:H0; [|by intros ?%elem_of_nil].
    apply connections_Some in H0 as [-> _].
    rewrite list_elem_of_bind. intros (c1 & Hin & Hc1).
    apply elem_of_children_in_log in Hc1.
    destruct (connections _ !! c1) as [gc|] eqn:H1; [|by apply elem_of_nil in Hin].
    apply connections_Some in H1 as [-> _].
    apply list_elem_of_fmap in Hin as (c2 & -> & Hc2).
    apply elem_of_children_in_log in Hc2. by exists c1, c2.
  - intros (c1 & c2 & -> & H1 & H2).
    apply elem_of_children_in_log in H1, H2.
    assert (connections (build_graph events) !! 0%Z = Some (children_in_log 0 events)) as ->.
    { apply connections_Some. split; [done|]. intros Hnil. rewrite Hnil in H1.
      by apply elem_of_nil in H1. }
    apply list_elem_of_bind. exists c1. split; [|done].
    assert (connections (build_graph events) !! c1 = Some (children_in_log c1 events)) as ->.
    { apply connections_Some. split; [done|]. intros Hnil. rewrite Hnil in H2.
      by apply elem_of_nil in H2. }
    apply list_elem_of_fmap. by exists c2.
Qed.

(** A chain line is printed for the children [c1] of the player and [c2] of
    [c1], and for no other pair: exactly when the log has an event
    [c1 -> 0] and an event [c2 -> c1]. *)
Theorem chain_line_printed (file_path : string) (events : list BondEvent) (c1 c2 : Z) :
  ChainLine c1 c2 ∈ report file_path events <->
  (c1, 0%Z) ∈ events /\ (c2, c1) ∈ events.
Proof.
  unfold report. rewrite !elem_of_app, !list_elem_of_singleton.
  rewrite elem_of_chain_lines. split.
  - intros [?|[?|[Hp|[?|[(d1 & d2 & [= <- <-] & H)|Hr]]]]]; try done.
    + by apply elem_of_player_lines_chain in Hp.
    + by apply elem_of_result_lines_chain in Hr.
  - intros H. do 4 right. left. by exists c1, c2.
Qed.

(** The line of a child is printed exactly for the children of the player
    that have children of their own, with the number of events that name
    the child as parent. *)
Theorem child_line_printed (file_path : string) (events : list BondEvent)
    (c : Z) (n : nat) :
  ChildLine c n ∈ report file_path events <->
  (c, 0%Z) ∈ events /\ n = length (children_in_log c events) /\ n <> 0%nat.
Proof.
  unfold report. rewrite !elem_of_app, !list_elem_of_singleton.
  rewrite elem_of_chain_lines. split.
  - intros [?|[?|[Hp|[?|[(d1 & d2 & ? & _)|Hr]]]]]; try done.
    + unfold player_lines in Hp.
      destruct (connections _ !! 0%Z) as [children|] eqn:H0; [|by apply elem_of_nil in Hp].
      apply connections_Some in H0 as [-> _].
      apply elem_of_cons in Hp as [?|Hp]; [done|].
      apply list_elem_of_omap in Hp as (c' & Hc' & Hl).
      apply elem_of_children_in_log in Hc'.
      destruct (connections _ !! c') as [gc|] eqn:H1; [|done].
      apply connections_Some in H1 as [-> Hne]. injection Hl as <- <-.
      split; [done|]. split; [done|]. by destruct (children_in_log c' events).
    + unfold result_lines in Hr. destruct (audit _) as [|v vs].
      * rewrite !elem_of_cons, elem_of_nil in Hr. destruct Hr as [?|[?|[]]]; done.
      * rewrite elem_of_cons, list_elem_of_fmap in Hr.
        destruct Hr as [?|(? & ? & _)]; done.
  - intros (Hc & -> & Hne). do 2 right. left. unfold player_lines.
    apply elem_of_children_in_log in Hc.
    assert (connections (build_graph events) !! 0%Z = Some (children_in_log 0 events)) as ->.
    { apply connections_Some. split; [done|]. intros Hnil. rewrite Hnil in Hc.
      by apply elem_of_nil in Hc. }
    right. apply list_elem_of_omap. exists c. split; [done|].
    assert (connections (build_graph events) !! c = Some (children_in_log c events)) as ->; [|done].
    apply connections_Some. split; [done|]. by destruct (children_in_log c events).
Qed.

(** A log in which the player is never a parent, the empty log included,
    prints the three headers and the clean result, and nothing else. *)
Theorem report_without_root (file_path : string) (events : list BondEvent) :
  Forall (fun e => e.2 <> 0%Z) events ->
  report file_path events =
    [Header file_path; AnalysisHeader; PathsHeader; CleanResult; CleanNote].
Proof.
  intros Hno. unfold report, player_lines, chain_lines, audit.
  assert (connections (build_graph events) !! 0%Z = None) as ->; [|done].
  rewrite connections_build.
  destruct (children_in_log 0 events) as [|c l] eqn:Hc; [done|].
  assert (c ∈ children_in_log 0 events) as Hin by (rewrite Hc; left).
  apply elem_of_children_in_log in Hin. rewrite Forall_forall in Hno.
  by destruct (Hno _ Hin).
Qed.

(** The violations do not depend on the order of the events in the log. *)
Theorem analyze_logs_order_free (events events' : list BondEvent) :
  events ≡ₚ events' -> analyze_logs events = analyze_logs events'.
Proof. apply analyze_logs_permuted. Qed.

(** The theorem at a log of three events and its reverse. *)
Lemma analyze_logs_order_free_witness :
  let events : list BondEvent := [(1, 0); (3, 1); (2, 0)]%Z in
  events ≡ₚ reverse events /\ analyze_logs events = analyze_logs (reverse events).
Proof.
  intros events.
  assert (Hp : events ≡ₚ reverse events) by (symmetry; apply reverse_Permutation).
  split; [exact Hp|].
  exact (analyze_logs_order_free events (reverse events) Hp).
Defined.

(** A violation is never withdrawn: once a log has one, every longer log
    has exactly one too, built from the count over the whole log. *)
Theorem violation_persists (l k : list BondEvent) :
  analyze_logs l <> [] ->
  analyze_logs (l ++ k) = [violation_text (root_count l + root_count k)].
Proof. apply analyze_logs_appended. Qed.

(** The theorem at a log with two children of the player, then one more
    event. *)
Lemma violation_persists_witness :
  let l : list BondEvent := [(1, 0); (2, 0)]%Z in
  let k : list BondEvent := [(3, 0)]%Z in
  analyze_logs l <> [] /\
  analyze_logs (l ++ k) = [violation_text (root_count l + root_count k)].
Proof.
  intros l k.
  assert (Hv : analyze_logs l <> []) by (vm_compute; discriminate).
  split; [exact Hv|]. exact (violation_persists l k Hv).
Defined.

(** The theorem at a log whose only event binds atom 2 to atom 1. *)
Lemma report_without_root_witness :
  let events : list BondEvent := [(2, 1)]%Z in
  Forall (fun e => e.2 <> 0%Z) events /\
  report "session.log" events =
    [Header "session.log"; AnalysisHeader; PathsHeader; CleanResult; CleanNote].
Proof.
  intros events.
  assert (Hno : Forall (fun e : BondEvent => e.2 <> 0%Z) events)
    by (repeat constructor; discriminate).
  split; [exact Hno|]. exact (report_without_root "session.log" events Hno).
Defined.

Example report_of_a_chain :
  render <$> report "session.log" [(1, 0); (2, 1); (3, 1); (4, 0)]%Z =
    ["--- AUDITORÍA QUÍMICA DE TOPOLOGÍA: session.log ---";
     nl +:+ "[ANÁLISIS DE ESTRUCTURAS DETECTADAS]";
     "Jugador (H, ID 0): 2 enlaces entrantes. Niños: [1, 4]";
     "  -> Hijo 1 tiene 2 enlaces. Estructura: H-1-(...)";
     nl +:+ "[VERIFICACIÓN DE CAMINOS (Ejemplo H-C-H)]";
     "Cadena detectada: H(0) -> Atom(1) -> Atom(2)";
     "Cadena detectada: H(0) -> Atom(1) -> Atom(3)";
     nl +:+ "[ALERTA] Anomalías detectadas:";
     "  - VIOLACIÓN: Jugador (H) tiene 2 enlaces (máx 1)."].
Proof. vm_compute. reflexivity. Qed.

End AuditMore.

(** ** The pattern of a bond line *)

Module ParserFacts.
Import Audit LogParser.

Section AnyDigits.
Variable is_digit : N -> bool.
Variable py_int : Text -> result Z.

Lemma strip_literal_Some (p l r : Text) :
  strip_literal p l = Some r <-> l = p ++ r.
Proof.
  revert l. induction p as [|c p IH]; intros l; cbn.
  - split; [by intros [= ->]|by intros ->].
  - destruct l as [|d l]; [done|].
    destruct (N.eqb_spec c d) as [->|Hne].
    + rewrite IH. split; [by intros ->|by intros [= ->]].
    + split; [done|]. intros [= ? ?]. done.
Qed.

Lemma span_digits_spec (l : Text) :
  l = (span_digits is_digit l).1 ++ (span_digits is_digit l).2 /\
  Forall (fun c => is_digit c = true) (span_digits is_digit l).1 /\
  ends_run is_digit (span_digits is_digit l).2.
Proof.
  induction l as [|c l (IH1 & IH2 & IH3)]; cbn; [done|].
  destruct (is_digit c) eqn:Hc.
  - destruct (span_digits is_digit l) as [run rest]. cbn in *.
    split; [by f_equal|]. split; [by constructor|done].
  - cbn. by repeat split.
Qed.

Lemma span_digits_run (run rest : Text) :
  Forall (fun c => is_digit c = true) run -> ends_run is_digit rest ->
  span_digits is_digit (run ++ rest) = (run, rest).
Proof.
  intros Hrun Hrest. induction Hrun as [|c run Hc _ IH].
  - destruct rest as [|c rest]; [done|]. simpl in *. by rewrite Hrest.
  - simpl. by rewrite Hc, IH.
Qed.

Lemma match_tail_Some (l g2 : Text) :
  match_tail is_digit l = Some g2 <->
  exists post, l = ARROW ++ g2 ++ post /\ g2 <> [] /\
    Forall (fun c => is_digit c = true) g2 /\ ends_run is_digit post.
Proof.
  unfold match_tail. split.
  - destruct (strip_literal ARROW l) as [rest|] eqn:Hs; [|done]. cbn.
    apply strip_literal_Some in Hs as ->.
    destruct (span_digits_spec rest) as (Hr & Hd & He).
    destruct (span_digits is_digit rest) as [run post]. cbn in *.
    destruct run as [|c run]; [done|]. intros [= <-].
    exists post. by rewrite Hr.
  - intros (post & -> & Hne & Hd & He).
    assert (strip_literal ARROW (ARROW ++ g2 ++ post) = Some (g2 ++ post)) as ->
      by by apply strip_literal_Some.
    cbn. rewrite span_digits_run by done. cbn. by destruct g2.
Qed.

Lemma match_groups_Some (k : nat) (run rest g1 g2 : Text) :
  match_groups is_digit k run rest = Some (g1, g2) ->
  exists j, (0 < j <= k)%nat /\ g1 = take j run /\
    match_tail is_digit (drop j run ++ rest) = Some g2.
Proof.
  induction k as [|k IH]; [done|]. cbn [match_groups].
  destruct (match_tail is_digit (drop (S k) run ++ rest)) as [g|] eqn:Ht.
  - intros [= <- <-]. exists (S k). split; [lia|done].
  - intros Hk. destruct (IH Hk) as (j & Hj & ? & ?). exists j. split; [lia|done].
Qed.

Lemma match_here_Some (l g1 g2 : Text) :
  match_here is_digit l = Some (g1, g2) ->
  exists post, l = PREFIX ++ g1 ++ ARROW ++ g2 ++ post /\
    g1 <> [] /\ g2 <> [] /\
    Forall (fun c => is_digit c = true) g1 /\
    Forall (fun c => is_digit c = true) g2 /\ ends_run is_digit post.
Proof.
  unfold match_here.
  destruct (strip_literal PREFIX l) as [rest|] eqn:Hs; [|done]. cbn.
  apply strip_literal_Some in Hs as ->.
  destruct (span_digits_spec rest) as (Hr & Hd & _).
  destruct (span_digits is_digit rest) as [run rest']. cbn in *.
  intros Hg. apply match_groups_Some in Hg as (j & Hj & -> & Ht).
  apply match_tail_Some in Ht as (post & Hpost & Hne & Hd2 & He).
  exists post. split.
  - rewrite Hr. rewrite <- (take_drop j run) at 1.
    rewrite <- !app_assoc. by rewrite Hpost.
  - split; [|split; [done|split; [by apply Forall_take|done]]].
    destruct run; [cbn in Hj; lia|]. destruct j; [lia|done].
Qed.

Lemma search_Some (line g1 g2 : Text) :
  search is_digit line = Some (g1, g2) ->
  exists pre post, line = pre ++ PREFIX ++ g1 ++ ARROW ++ g2 ++ post /\
    g1 <> [] /\ g2 <> [] /\
    Forall (fun c => is_digit c = true) g1 /\
    Forall (fun c => is_digit c = true) g2 /\ ends_run is_digit post.
Proof.
  induction line as [|c line IH]; cbn [search].
  - destruct (match_here is_digit []) as [[h1 h2]|] eqn:Hm; [|done].
    intros [= -> ->]. apply match_here_Some in Hm as (post & ? & ?). by exists [], post.
  - destruct (match_here is_digit (c :: line)) as [[h1 h2]|] eqn:Hm.
    + intros [= -> ->]. apply match_here_Some in Hm as (post & ? & ?). by exists [], post.
    + intros Hs. destruct (IH Hs) as (pre & post & -> & ?). by exists (c :: pre), post.
Qed.

Lemma match_here_needs_bracket (l : Text) :
  head l <> Some 91%N -> match_here is_digit l = None.
Proof.
  intros Hh. unfold match_here.
  destruct (strip_literal PREFIX l) as [rest|] eqn:Hs; [|done].
  apply strip_literal_Some in Hs as ->. by destruct Hh.
Qed.

Lemma search_cons (c : N) (l : Text) :
  search is_digit (c :: l) =
    match match_here is_digit (c :: l) with
    | Some m => Some m
    | None => search is_digit l
    end.
Proof. reflexivity. Qed.

Lemma search_skips (pre l : Text) :
  91%N ∉ pre -> search is_digit (pre ++ l) = search is_digit l.
Proof.
  induction pre as [|c pre IH]; [done|]. intros Hpre.
  apply not_elem_of_cons in Hpre as [Hc Hpre].
  rewrite <- app_comm_cons, search_cons.
  rewrite match_here_needs_bracket; [by apply IH|].
  cbn. congruence.
Qed.

Lemma search_no_bracket (line : Text) :
  91%N ∉ line -> search is_digit line = None.
Proof.
  intros Hno. rewrite <- (app_nil_r line), search_skips by done.
  reflexivity.
Qed.

Lemma match_groups_full (k : nat) (run rest g2 : Text) :
  k = length run -> k <> 0%nat ->
  match_tail is_digit rest = Some g2 ->
  match_groups is_digit k run rest = Some (run, g2).
Proof.
  intros Hk Hne Ht. destruct k as [|k]; [done|]. cbn [match_groups].
  rewrite Hk, drop_all, firstn_all. cbn [app]. by rewrite Ht.
Qed.

Lemma match_here_well_formed (g1 g2 post : Text) :
  is_digit 32%N = false ->
  g1 <> [] -> g2 <> [] ->
  Forall (fun c => is_digit c = true) g1 ->
  Forall (fun c => is_digit c = true) g2 ->
  ends_run is_digit post ->
  match_here is_digit (PREFIX ++ g1 ++ ARROW ++ g2 ++ post) = Some (g1, g2).
Proof.
  intros Hsp Hn1 Hn2 Hd1 Hd2 He. unfold match_here.
  assert (strip_literal PREFIX (PREFIX ++ g1 ++ ARROW ++ g2 ++ post)
          = Some (g1 ++ ARROW ++ g2 ++ post)) as -> by by apply strip_literal_Some.
  cbn [mbind option_bind].
  rewrite span_digits_run; [|done|by cbn].
  apply match_groups_full; [done|by destruct g1|].
  apply match_tail_Some. by exists post.
Qed.

Lemma search_well_formed (pre g1 g2 post : Text) :
  is_digit 32%N = false ->
  91%N ∉ pre ->
  g1 <> [] -> g2 <> [] ->
  Forall (fun c => is_digit c = true) g1 ->
  Forall (fun c => is_digit c = true) g2 ->
  ends_run is_digit post ->
  search is_digit (pre ++ PREFIX ++ g1 ++ ARROW ++ g2 ++ post) = Some (g1, g2).
Proof.
  intros Hsp Hpre Hn1 Hn2 Hd1 Hd2 He. rewrite search_skips by done.
  change (PREFIX ++ g1 ++ ARROW ++ g2 ++ post) with
    (91%N :: tail PREFIX ++ g1 ++ ARROW ++ g2 ++ post).
  rewrite search_cons.
  change (91%N :: tail PREFIX ++ g1 ++ ARROW ++ g2 ++ post) with
    (PREFIX ++ g1 ++ ARROW ++ g2 ++ post).
  by rewrite match_here_well_formed.
Qed.

(** A line that yields an event holds the pattern: some text, the literal
    [[BOND] GLOBAL SUCCESS: ], a non-empty run of digits, the literal
    [ -> ], a second non-empty run that ends where the digits end; the
    child is [int] of the first run and the parent [int] of the second. *)
Theorem parse_line_sound (line : Text) (c p : Z) :
  parse_line is_digit py_int line = Ok (Some (c, p)) ->
  exists pre g1 g2 post,
    line = pre ++ PREFIX ++ g1 ++ ARROW ++ g2 ++ post /\
    g1 <> [] /\ g2 <> [] /\
    Forall (fun ch => is_digit ch = true) g1 /\
    Forall (fun ch => is_digit ch = true) g2 /\
    ends_run is_digit post /\
    py_int g1 = Ok c /\ py_int g2 = Ok p.
Proof.
  unfold parse_line.
  destruct (search is_digit line) as [[g1 g2]|] eqn:Hs; [|done].
  apply search_Some in Hs as (pre & post & -> & Hn1 & Hn2 & Hd1 & Hd2 & He).
  destruct (py_int g1) as [c'|e] eqn:H1; next; [|done].
  destruct (py_int g2) as [p'|e] eqn:H2; next; [|done].
  intros [= <- <-]. by exists pre, g1, g2, post.
Qed.

(** A bond line is read back: after any text without an opening bracket,
    the literal, a run of digits, the arrow and a second run that is not
    followed by a digit give the event whose child and parent are [int] of
    the two runs, whatever follows on the line. *)
Theorem parse_line_reads_bond_line (pre g1 g2 post : Text) (c p : Z) :
  is_digit 32%N = false ->
  91%N ∉ pre ->
  g1 <> [] -> g2 <> [] ->
  Forall (fun ch => is_digit ch = true) g1 ->
  Forall (fun ch => is_digit ch = true) g2 ->
  ends_run is_digit post ->
  py_int g1 = Ok c -> py_int g2 = Ok p ->
  parse_line is_digit py_int (pre ++ PREFIX ++ g1 ++ ARROW ++ g2 ++ post)
    = Ok (Some (c, p)).
Proof.
  intros Hsp Hpre Hn1 Hn2 Hd1 Hd2 He H1 H2. unfold parse_line.
  rewrite search_well_formed by done. by rewrite H1, H2.
Qed.

Lemma parse_line_no_bracket (line : Text) :
  91%N ∉ line -> parse_line is_digit py_int line = Ok None.
Proof. intros Hno. unfold parse_line. by rewrite search_no_bracket. Qed.

(** A line without an opening bracket is skipped: no event and no
    exception, [int] is not called. *)
Theorem parse_line_skips (line : Text) :
  91%N ∉ line -> parse_line is_digit py_int line = Ok None.
Proof. apply parse_line_no_bracket. Qed.

Lemma read_events_app (l1 l2 : list Text) :
  read_events is_digit py_int (l1 ++ l2) =
    es1 ← read_events is_digit py_int l1;
    es2 ← read_events is_digit py_int l2;
    Ok (es1 ++ es2).
Proof.
  induction l1 as [|line l1 IH]; cbn [app read_events].
  - by destruct (read_events is_digit py_int l2).
  - destruct (parse_line is_digit py_int line) as [e|err]; next; [|done].
    rewrite IH.
    destruct (read_events is_digit py_int l1) as [es1|err]; next; [|done].
    destruct (read_events is_digit py_int l2) as [es2|err]; next; [|done].
    by destruct e.
Qed.

(** Reading is a single forward pass: the events of two logs read one
    after the other are the events of the first followed by those of the
    second, and an exception in the first comes first. *)
Theorem read_events_concatenates (l1 l2 : list Text) :
  read_events is_digit py_int (l1 ++ l2) =
    es1 ← read_events is_digit py_int l1;
    es2 ← read_events is_digit py_int l2;
    Ok (es1 ++ es2).
Proof. apply read_events_app. Qed.

(** A line without an opening bracket can be dropped from the log, or
    added to it, without changing what is read. *)
Theorem noise_line_changes_nothing (l1 l2 : list Text) (noise : Text) :
  91%N ∉ noise ->
  read_events is_digit py_int (l1 ++ noise :: l2) =
  read_events is_digit py_int (l1 ++ l2).
Proof.
  intros Hno. rewrite !read_events_app. cbn [read_events].
  rewrite parse_line_no_bracket by done. next.
  destruct (read_events is_digit py_int l1) as [es1|err]; next; [|done].
  by destruct (read_events is_digit py_int l2).
Qed.

End AnyDigits.

(** *** On ASCII text *)

Lemma timestamp_has_no_bracket : 91%N ∉ codes "12:00 ".
Proof. apply (bool_decide_unpack _). vm_compute. exact I. Qed.

Lemma noise_has_no_bracket : 91%N ∉ codes "noise".
Proof. apply (bool_decide_unpack _). vm_compute. exact I. Qed.

Lemma bond_line_parsed :
  parse_line ascii_digit ascii_int
    (codes "12:00 [BOND] GLOBAL SUCCESS: 17 -> 0 ok") = Ok (Some (17, 0)%Z).
Proof. vm_compute. reflexivity. Qed.

(** The theorem at a bond line with a time stamp before it and text after
    it. *)
Lemma parse_line_sound_witness :
  parse_line ascii_digit ascii_int
    (codes "12:00 [BOND] GLOBAL SUCCESS: 17 -> 0 ok") = Ok (Some (17, 0)%Z) /\
  exists pre g1 g2 post,
    codes "12:00 [BOND] GLOBAL SUCCESS: 17 -> 0 ok"
      = pre ++ PREFIX ++ g1 ++ ARROW ++ g2 ++ post /\
    g1 <> [] /\ g2 <> [] /\
    Forall (fun ch => ascii_digit ch = true) g1 /\
    Forall (fun ch => ascii_digit ch = true) g2 /\
    ends_run ascii_digit post /\
    ascii_int g1 = Ok 17%Z /\ ascii_int g2 = Ok 0%Z.
Proof.
  split; [exact bond_line_parsed|].
  exact (parse_line_sound ascii_digit ascii_int _ 17 0 bond_line_parsed).
Defined.

(** The theorem at the same line, taken apart. *)
Lemma parse_line_reads_bond_line_witness :
  parse_line ascii_digit ascii_int
    (codes "12:00 " ++ PREFIX ++ codes "17" ++ ARROW ++ codes "0" ++ codes " ok")
    = Ok (Some (17, 0)%Z).
Proof.
  apply (parse_line_reads_bond_line ascii_digit ascii_int
           (codes "12:00 ") (codes "17") (codes "0") (codes " ok") 17 0).
  - reflexivity.
  - exact timestamp_has_no_bracket.
  - discriminate.
  - discriminate.
  - repeat constructor.
  - repeat constructor.
  - reflexivity.
  - reflexivity.
  - reflexivity.
Defined.

(** The theorem at a line of plain text. *)
Lemma parse_line_skips_witness :
(91%N ∉ codes "noise") /\
  parse_line ascii_digit ascii_int (codes "noise") = Ok None.
Proof.
  split; [exact noise_has_no_bracket|].
  exact (parse_line_skips ascii_digit ascii_int _ noise_has_no_bracket).
Defined.

(** The theorem at a log of two bond lines with plain text between them. *)
Lemma noise_line_changes_nothing_witness :
  let l1 := [codes "[BOND] GLOBAL SUCCESS: 1 -> 0"] in
  let l2 := [codes "[BOND] GLOBAL SUCCESS: 2 -> 1"] in
  (91%N ∉ codes "noise") /\
  read_events ascii_digit ascii_int (l1 ++ codes "noise" :: l2) =
  read_events ascii_digit ascii_int (l1 ++ l2).
Proof.
  intros l1 l2. split; [exact noise_has_no_bracket|].
  exact (noise_line_changes_nothing ascii_digit ascii_int l1 l2 _
           noise_has_no_bracket).
Defined.

Example read_events_of_a_log :
  read_events ascii_digit ascii_int
    [codes "[BOND] GLOBAL SUCCESS: 1 -> 0"; codes "noise";
     codes "[BOND] GLOBAL FAILURE: 9 -> 0";
     codes "x [BOND] GLOBAL SUCCESS: y [BOND] GLOBAL SUCCESS: 2 -> 1"] =
    Ok [(1, 0); (2, 1)]%Z.
Proof. vm_compute. reflexivity. Qed.

End ParserFacts.
